(** * ORFixForComplexMods: the block transformer and the line tokenizer

    A shallow embedding of [src/Old/ORFixForComplexMods.py]:
    [process_block_full] (rename pass, removal of misplaced run lines,
    insertion of the correct run line) and the line loop of
    [process_ini_preview].

    Lines are Python [str] values.  They are modelled as [string] over the
    code points below 256; on that alphabet [str.isspace], the regex class
    [\s] and [str.lstrip]/[str.strip] agree on the twelve characters of
    [is_space], [\d] is the ten ASCII digits, and [re.IGNORECASE] on the
    ASCII letters of the patterns is ASCII case folding. *)

From Stdlib Require Import String Ascii.
From stdpp Require Import base decidable option list gmap strings sorting.


(** ** Characters and strings *)

Module Str.

(** [str.isspace] on one character (also what [\s] accepts). *)
Definition is_space (c : ascii) : bool :=
  let n := nat_of_ascii c in
  ((9 <=? n) && (n <=? 13)) || ((28 <=? n) && (n <=? 32))
  || (n =? 133) || (n =? 160).

(** What [\d] accepts. *)
Definition is_digit (c : ascii) : bool :=
  let n := nat_of_ascii c in (48 <=? n) && (n <=? 57).

(** ASCII lower-casing, the folding [re.IGNORECASE] applies to the letters
    that occur in the patterns. *)
Definition lower (c : ascii) : ascii :=
  let n := nat_of_ascii c in
  if (65 <=? n) && (n <=? 90) then ascii_of_nat (n + 32) else c.

Definition ci_eqb (a b : ascii) : bool := Ascii.eqb (lower a) (lower b).

(** [s.lstrip()]. *)
Fixpoint lstrip (s : string) : string :=
  match s with
  | String c s' => if is_space c then lstrip s' else s
  | EmptyString => EmptyString
  end.

(** [s.rstrip()]. *)
Fixpoint rstrip (s : string) : string :=
  match s with
  | String c s' =>
      match rstrip s' with
      | EmptyString => if is_space c then EmptyString else String c EmptyString
      | r => String c r
      end
  | EmptyString => EmptyString
  end.

(** [s.strip()]. *)
Definition strip (s : string) : string := lstrip (rstrip s).

(** Matching the literal [lit] at the head of [s]; the rest of [s] on
    success.  [eat] compares characters exactly, [eat_ci] up to case. *)
Fixpoint eat_with (eqb : ascii -> ascii -> bool) (lit s : string) : option string :=
  match lit with
  | EmptyString => Some s
  | String a lit' =>
      match s with
      | String c s' => if eqb a c then eat_with eqb lit' s' else None
      | EmptyString => None
      end
  end.

Definition eat : string -> string -> option string := eat_with Ascii.eqb.
Definition eat_ci : string -> string -> option string := eat_with ci_eqb.

(** [s.startswith(p)]. *)
Definition startswith (s p : string) : bool := bool_decide (is_Some (eat p s)).

(** [p in s]. *)
Fixpoint contains (p s : string) : bool :=
  startswith s p ||
  match s with
  | String _ s' => contains p s'
  | EmptyString => false
  end.

(** [s.replace(old, new, 1)]: the leftmost occurrence only. *)
Fixpoint replace1 (old new s : string) : string :=
  match eat old s with
  | Some rest => new +:+ rest
  | None =>
      match s with
      | String c s' => String c (replace1 old new s')
      | EmptyString => EmptyString
      end
  end.

(** At least one [\d] at the head: the digits (greedy) and the rest. *)
Fixpoint span_digits (s : string) : string * string :=
  match s with
  | String c s' =>
      if is_digit c then let '(d, r) := span_digits s' in (String c d, r)
      else (EmptyString, s)
  | EmptyString => (EmptyString, EmptyString)
  end.

Definition head_is (p : ascii -> bool) (s : string) : bool :=
  match s with
  | String c _ => p c
  | EmptyString => false
  end.

End Str.

Import Str.

(** The newline character and a line made of [s] and a newline. *)
Definition nl : string := String (ascii_of_nat 10) EmptyString.
Definition ln (s : string) : string := s +:+ nl.

(** ** The patterns *)

(** One entry of [AUTO_EXCLUDE_PATTERNS]:
    [^\[(CommandList|TextureOverride).*<suffix>\]$] with [re.IGNORECASE].
    [.] does not cross a newline, and [$] holds at the end of the string
    or before a final newline. *)
Definition at_dollar (s : string) : bool :=
  bool_decide (s = EmptyString) || bool_decide (s = nl).

Fixpoint dot_star_then (suffix s : string) : bool :=
  match eat_ci suffix s with
  | Some t => at_dollar t
  | None => false
  end ||
  match s with
  | String c s' => negb (Ascii.eqb c (ascii_of_nat 10)) && dot_star_then suffix s'
  | EmptyString => false
  end.

Definition auto_exclude_pattern (suffix s : string) : bool :=
  match eat_ci "[CommandList" s with
  | Some t => dot_star_then (suffix +:+ "]") t
  | None =>
      match eat_ci "[TextureOverride" s with
      | Some t => dot_star_then (suffix +:+ "]") t
      | None => false
      end
  end.

Definition AUTO_EXCLUDE_SUFFIXES : list string :=
  ["IB"; "Position"; "Texcoord"; "Blend"; "Info"; "VertexLimitRaise"].

(** [any(pat.match(s) for pat in AUTO_EXCLUDE_PATTERNS)]. *)
Definition AUTO_EXCLUDE_PATTERNS (s : string) : bool :=
  existsb (fun suffix => auto_exclude_pattern suffix s) AUTO_EXCLUDE_SUFFIXES.

(** [SWAPVAR_PATTERN.match(line)]:
    [^\s*(if|else if)\s+\$swapvar\s*==\s*(\d+)] with [re.IGNORECASE];
    the result is group 2. *)
Definition swapvar_tail (t : string) : option string :=
  if head_is is_space t then
    match eat_ci "$swapvar" (lstrip t) with
    | Some u =>
        match eat "==" (lstrip u) with
        | Some v =>
            let '(d, _) := span_digits (lstrip v) in
            if bool_decide (d = EmptyString) then None else Some d
        | None => None
        end
    | None => None
    end
  else None.

Definition SWAPVAR_PATTERN (line : string) : option string :=
  let s := lstrip line in
  match eat_ci "if" s with
  | Some t => swapvar_tail t
  | None =>
      match eat_ci "else if" s with
      | Some t => swapvar_tail t
      | None => None
      end
  end.

(** [RUN_LINE_PATTERN.match(line)]:
    [\s*run\s*=\s*CommandList\\global\\ORFix\\(NNFix|ORFix)] with
    [re.IGNORECASE]. *)
Definition RUN_LINE_PATTERN (line : string) : bool :=
  match eat_ci "run" (lstrip line) with
  | Some a =>
      match eat "=" (lstrip a) with
      | Some b =>
          match eat_ci "CommandList\global\ORFix\" (lstrip b) with
          | Some c =>
              bool_decide (is_Some (eat_ci "NNFix" c))
              || bool_decide (is_Some (eat_ci "ORFix" c))
          | None => false
          end
      | None => false
      end
  | None => false
  end.

(** [re.match(r'\s*endif', line, re.IGNORECASE)]. *)
Definition endif_match (line : string) : bool :=
  bool_decide (is_Some (eat_ci "endif" (lstrip line))).

(** [re.match(r'ps-t0\s*=', stripped)]. *)
Definition ps_t0_assign (stripped : string) : bool :=
  match eat "ps-t0" stripped with
  | Some t => bool_decide (is_Some (eat "=" (lstrip t)))
  | None => false
  end.

(** [re.match(r'ps-t\d+', stripped)]. *)
Definition ps_t_digits (stripped : string) : bool :=
  match eat "ps-t" stripped with
  | Some t => head_is is_digit t
  | None => false
  end.

(** The section-header test of the tokenizer, on the stripped line. *)
Definition is_header (stripped : string) : bool :=
  startswith stripped "[CommandList" || startswith stripped "[TextureOverride".

(** ** Change records *)

(** The three f-strings appended to [changes]: each carries the section
    name ([None] before the first header) and the text it prints. *)
Inductive Change : Type :=
  | Renamed (section_name : option string) (before after : string)
  | RemovedDirective (section_name : option string) (line : string)
  | AddedDirective (section_name : option string) (line : string).

Definition is_Renamed (c : Change) : bool :=
  match c with Renamed _ _ _ => true | _ => false end.
Definition is_RemovedDirective (c : Change) : bool :=
  match c with RemovedDirective _ _ => true | _ => false end.
Definition is_AddedDirective (c : Change) : bool :=
  match c with AddedDirective _ _ => true | _ => false end.

(** ** process_block_full *)

Definition ORFix_run : string := ln "run = CommandList\global\ORFix\ORFix".
Definition NNFix_run : string := ln "run = CommandList\global\ORFix\NNFix".

(** [has_normal] and [correct_run]. *)
Definition has_normal (block : list string) : bool :=
  existsb (contains "NormalMap") block.

Definition correct_run (block : list string) : string :=
  if has_normal block then ORFix_run else NNFix_run.

(** [len(line) - len(line.lstrip())]. *)
Definition indent_of (line : string) : nat :=
  String.length line - String.length (lstrip line).

(** The condition under which the first loop renames a line. *)
Definition rename_cond (rename_extra_ps : bool) (stripped : string) : bool :=
  rename_extra_ps && ps_t0_assign stripped
  && contains "Extra" stripped && contains "Diffuse" stripped.

(** The state of the first loop: [new_block], [changes] and
    [last_ps_indices]. *)
Record Pass1 : Type := mkPass1 {
  p_block : list string;
  p_changes : list Change;
  p_last : gmap nat nat
}.

(** One iteration of the first loop. *)
Definition rename_step (rename_extra_ps : bool) (section_name : option string)
    (st : Pass1) (line : string) : Pass1 :=
  let stripped := lstrip line in
  let indent := String.length line - String.length stripped in
  let '(new_block, changes) :=
    if rename_cond rename_extra_ps stripped
    then (p_block st ++ [replace1 "ps-t0" "ps-t1" line],
          p_changes st ++
            [Renamed section_name stripped (replace1 "ps-t0" "ps-t1" stripped)])
    else (p_block st ++ [line], p_changes st) in
  let last :=
    if ps_t_digits stripped
    then <[indent := length new_block - 1]> (p_last st)
    else p_last st in
  mkPass1 new_block changes last.

Definition rename_pass (rename_extra_ps : bool) (section_name : option string)
    (block : list string) : Pass1 :=
  fold_left (rename_step rename_extra_ps section_name) block (mkPass1 [] [] ∅).

(** Whether the second loop keeps the run line at position [i]. *)
Definition keep_run (last : gmap nat nat) (correct : string) (i : nat)
    (line : string) : bool :=
  match last !! indent_of line with
  | Some j => bool_decide (i = j + 1) && bool_decide (line = correct)
  | None => false
  end.

(** The second loop, from position [i] on: [temp_block] and [changes]. *)
Fixpoint remove_loop (last : gmap nat nat) (correct : string)
    (section_name : option string) (i : nat) (new_block : list string)
    (temp_block : list string) (changes : list Change)
    : list string * list Change :=
  match new_block with
  | [] => (temp_block, changes)
  | line :: rest =>
      if RUN_LINE_PATTERN line then
        if keep_run last correct i line
        then remove_loop last correct section_name (S i) rest
               (temp_block ++ [line]) changes
        else remove_loop last correct section_name (S i) rest temp_block
               (changes ++ [RemovedDirective section_name (strip line)])
      else remove_loop last correct section_name (S i) rest
             (temp_block ++ [line]) changes
  end.

(** [l.insert(i, x)] for [i >= 0]: past the end it appends. *)
Definition list_insert_at {A} (i : nat) (x : A) (l : list A) : list A :=
  take i l ++ x :: drop i l.

(** The order of Python tuples [(indent, last_index)]. *)
Definition item_le (a b : nat * nat) : Prop :=
  a.1 < b.1 ∨ (a.1 = b.1 ∧ a.2 ≤ b.2).

Global Instance item_le_dec : RelDecision item_le.
Proof. intros a b. unfold item_le. apply _. Defined.

(** [sorted(last_ps_indices.items())]: the keys are distinct, so the pairs
    come out by ascending indentation.  The list is built once, before the
    loop runs. *)
Definition sorted_items (last : gmap nat nat) : list (nat * nat) :=
  merge_sort item_le (map_to_list last).

(** One iteration of the third loop, on the pair [(indent, last_index)]
    taken from the sorted list. *)
Definition insert_step (correct : string) (section_name : option string)
    (st : Pass1) (item : nat * nat) : Pass1 :=
  let insert_index := item.2 + 1 in
  if bool_decide (p_block st !! insert_index = Some correct) then st
  else
    mkPass1 (list_insert_at insert_index correct (p_block st))
            (p_changes st ++ [AddedDirective section_name (strip correct)])
            ((fun v => if bool_decide (insert_index ≤ v) then v + 1 else v)
               <$> p_last st).

Definition process_block_full (rename_extra_ps : bool) (block : list string)
    (section_name : option string) (is_excluded : bool)
    : list string * list Change :=
  if bool_decide (block = []) || is_excluded then (block, [])
  else
    let correct := correct_run block in
    let p1 := rename_pass rename_extra_ps section_name block in
    let '(temp_block, changes) :=
      remove_loop (p_last p1) correct section_name 0 (p_block p1) []
        (p_changes p1) in
    let p3 :=
      fold_left (insert_step correct section_name) (sorted_items (p_last p1))
        (mkPass1 temp_block changes (p_last p1)) in
    (p_block p3, p_changes p3).

(** ** process_ini_preview *)

(** The variables of the line loop. *)
Record State : Type := mkState {
  new_lines : list string;
  block_lines : list string;
  current_section : option string;
  inside_section : bool;
  inside_excluded : bool;
  current_swapvar : option string;
  all_changes : list Change
}.

Definition initial_state : State :=
  mkState [] [] None false false None [].

(** The flush that the loop repeats:
    [process_block_full(block_lines, current_section, inside_excluded)],
    its two results appended to [new_lines] and [all_changes]. *)
Definition flush (rename_extra_ps : bool) (st : State)
    : list string * list Change :=
  let '(processed, changes) :=
    process_block_full rename_extra_ps (block_lines st) (current_section st)
      (inside_excluded st) in
  (new_lines st ++ processed, all_changes st ++ changes).

(** [if block_lines: <flush>; block_lines.clear()]. *)
Definition flush_pending (rename_extra_ps : bool) (st : State) : State :=
  if bool_decide (block_lines st = []) then st
  else
    let '(nl', ch') := flush rename_extra_ps st in
    mkState nl' [] (current_section st) (inside_section st)
      (inside_excluded st) (current_swapvar st) ch'.

(** The body of [for line in lines]. *)
Definition step (rename_extra_ps : bool) (exclude_sections : gset string)
    (st : State) (line : string) : State :=
  let stripped := strip line in
  if is_header stripped then
    let st1 := flush_pending rename_extra_ps st in
    mkState (new_lines st1 ++ [line]) (block_lines st1) (Some stripped) true
      (AUTO_EXCLUDE_PATTERNS stripped
       || bool_decide (stripped ∈ exclude_sections))
      None (all_changes st1)
  else
    match SWAPVAR_PATTERN line with
    | Some digits =>
        let st1 := flush_pending rename_extra_ps st in
        mkState (new_lines st1) (block_lines st1 ++ [line])
          (current_section st1) (inside_section st1) (inside_excluded st1)
          (Some digits) (all_changes st1)
    | None =>
        if inside_section st && endif_match line then
          let '(nl', ch') :=
            flush rename_extra_ps
              (mkState (new_lines st) (block_lines st ++ [line])
                 (current_section st) (inside_section st)
                 (inside_excluded st) (current_swapvar st) (all_changes st)) in
          mkState nl' [] (current_section st) (inside_section st)
            (inside_excluded st) None ch'
        else if inside_section st then
          mkState (new_lines st) (block_lines st ++ [line])
            (current_section st) (inside_section st) (inside_excluded st)
            (current_swapvar st) (all_changes st)
        else
          mkState (new_lines st ++ [line]) (block_lines st)
            (current_section st) (inside_section st) (inside_excluded st)
            (current_swapvar st) (all_changes st)
    end.

Definition run_lines (rename_extra_ps : bool) (exclude_sections : gset string)
    (lines : list string) (st : State) : State :=
  fold_left (step rename_extra_ps exclude_sections) lines st.

(** The loop over the lines read from the file, the final flush and the
    returned pair [(all_changes, new_lines)]. *)
Definition finish (rename_extra_ps : bool) (st : State)
    : list Change * list string :=
  let st' :=
    if bool_decide (block_lines st = []) then st
    else
      let '(nl', ch') := flush rename_extra_ps st in
      mkState nl' (block_lines st) (current_section st) (inside_section st)
        (inside_excluded st) (current_swapvar st) ch' in
  (all_changes st', new_lines st').

Definition process_ini_preview (rename_extra_ps : bool)
    (exclude_sections : gset string) (lines : list string)
    : list Change * list string :=
  finish rename_extra_ps
    (run_lines rename_extra_ps exclude_sections lines initial_state).

(** ** Definitions used by the statements *)

(** The rename rule in the words of the specification: the line, with its
    leading whitespace stripped, matches [ps-t0\s*=], and the line contains
    both [Extra] and [Diffuse]. *)
Definition rename_target (line : string) : bool :=
  ps_t0_assign (lstrip line) && contains "Extra" line && contains "Diffuse" line.

Definition rename_line (rename_extra_ps : bool) (line : string) : string :=
  if rename_extra_ps && rename_target line
  then replace1 "ps-t0" "ps-t1" line else line.

Definition rename_record (rename_extra_ps : bool) (section_name : option string)
    (line : string) : list Change :=
  if rename_extra_ps && rename_target line
  then [Renamed section_name (lstrip line)
          (replace1 "ps-t0" "ps-t1" (lstrip line))]
  else [].

(** What the tokenizer does with the input lines: a line goes to the output
    as it is, or into a block that is handed to [process_block_full] with
    the section name and exclusion flag current at the flush. *)
Inductive Item : Type :=
  | Verbatim (line : string)
  | Flushed (block : list string) (section_name : option string)
      (is_excluded : bool).

Definition item_lines (it : Item) : list string :=
  match it with
  | Verbatim line => [line]
  | Flushed block _ _ => block
  end.

Definition item_nonempty (it : Item) : Prop :=
  match it with
  | Verbatim _ => True
  | Flushed block _ _ => block ≠ []
  end.

(** The output lines and change records of a sequence of items, every
    block passed through [process_block_full] once. *)
Fixpoint emit (rename_extra_ps : bool) (items : list Item)
    : list string * list Change :=
  match items with
  | [] => ([], [])
  | Verbatim line :: rest =>
      let '(o, c) := emit rename_extra_ps rest in (line :: o, c)
  | Flushed block sec ex :: rest =>
      let '(p, pc) := process_block_full rename_extra_ps block sec ex in
      let '(o, c) := emit rename_extra_ps rest in (p ++ o, pc ++ c)
  end.

(** A line that is not a section header for the tokenizer. *)
Definition not_header (line : string) : Prop := is_header (strip line) = false.

(** The blocks of the examples. *)
Definition block_two_slots : list string :=
  [ln "if $swapvar == 0"; ln "ps-t0 = ResourceExtraDiffuse";
   ln "ps-t1 = ResourceNormalMap"; ln "endif"].

Definition block_stray_run : list string :=
  [ln "if $swapvar == 0"; ln "ps-t0 = ResourceExtraDiffuse"; NNFix_run;
   ln "ps-t1 = ResourceNormalMap"; ln "endif"].

Definition block_run_between_slots : list string :=
  [ln "ps-t0 = ResourceBodyDiffuse"; NNFix_run;
   ln "ps-t1 = ResourceBodyLightMap"; ln "ib = ResourceBodyIB";
   ln "drawindexed = auto"].

Definition block_two_depths : list string :=
  [ln "ps-t0 = ResourceBodyDiffuse"; ln "if $costume == 1";
   ln "    ps-t1 = ResourceBodyLightMap"; ln "endif"].

Definition block_wrong_target : list string :=
  [ln "if $swapvar == 0"; ln "ps-t0 = ResourceBodyDiffuse"; ORFix_run;
   ln "ps-t1 = ResourceBodyLightMap"; ln "endif"].

Definition block_indented_slot : list string :=
  [ln "if $swapvar == 0"; ln "    ps-t0 = ResourceBodyDiffuse"; ln "endif"].

(** The first character of a string, lower-cased. *)
Definition hd_lower (s : string) : option ascii :=
  match s with
  | String c _ => Some (lower c)
  | EmptyString => None
  end.

(** Before the first header no section is open. *)
Definition outside (st : State) : Prop :=
  inside_section st = false ∧ current_section st = None
  ∧ inside_excluded st = false.

(** The position of the last slot assignment with indentation [d] among
    the lines of [block], which start at position [i]. *)
Fixpoint last_slot_from (d i : nat) (block : list string) : option nat :=
  match block with
  | [] => None
  | line :: rest =>
      match last_slot_from d (S i) rest with
      | Some j => Some j
      | None =>
          if ps_t_digits (lstrip line) && (indent_of line =? d)
          then Some i else None
      end
  end.

(** Directive correctness at depth [d], in the words of the specification:
    when [block] has a slot assignment at depth [d], the line after the
    last one is [correct], and no other run line of [block] has
    indentation [d]. *)
Definition directive_correct_at (correct : string) (block : list string)
    (d : nat) : bool :=
  match last_slot_from d 0 block with
  | None => true
  | Some j =>
      bool_decide (block !! (j + 1) = Some correct)
      && forallb
           (fun p : nat * string =>
              bool_decide (p.1 = j + 1)
              || negb (RUN_LINE_PATTERN p.2 && (indent_of p.2 =? d)))
           (combine (seq 0 (length block)) block)
  end.

(** ** Further definitions used by the statements *)

(** A line that is not a run line. *)
Definition non_run (line : string) : bool := negb (RUN_LINE_PATTERN line).

(** The record of the removal of [line]. *)
Definition removal_record (section_name : option string) (line : string)
    : Change :=
  RemovedDirective section_name (strip line).

(** A slot assignment, as the first loop recognises it. *)
Definition is_slot (line : string) : bool := ps_t_digits (lstrip line).

(** A string with its ASCII capitals lower-cased: two strings are equal
    up to case when their images are equal. *)
Fixpoint lower_str (s : string) : string :=
  match s with
  | String c s' => String (lower c) (lower_str s')
  | EmptyString => EmptyString
  end.


(** The header test of the tokenizer on a raw line. *)
Definition is_header_line (line : string) : bool := is_header (strip line).

(** No swap-conditional line comes before the first section header. *)
Fixpoint no_early_swapvar (lines : list string) : bool :=
  match lines with
  | [] => true
  | line :: rest =>
      if is_header_line line then true
      else
        match SWAPVAR_PATTERN line with
        | Some _ => false
        | None => no_early_swapvar rest
        end
  end.

(** The exclusion flag the tokenizer computes at a header, for a section
    name; [None] stands for the lines before the first header. *)
Definition excluded_section (exclude_sections : gset string)
    (section_name : option string) : bool :=
  match section_name with
  | Some s => AUTO_EXCLUDE_PATTERNS s || bool_decide (s ∈ exclude_sections)
  | None => false
  end.

(** The section a block belongs to: the name of a header line among
    [lines]. *)
Definition section_of (lines : list string) (section_name : option string)
    : Prop :=
  ∃ h, h ∈ lines ∧ is_header_line h = true ∧ section_name = Some (strip h).

(** A flushed block of a file whose blocks all lie inside sections: it is
    not empty, it is processed under the name and the exclusion flag of a
    section of the file, it holds no header line, and only its first line
    can open a swap-conditional. *)
Definition item_ok (exclude_sections : gset string) (lines : list string)
    (it : Item) : Prop :=
  match it with
  | Verbatim _ => True
  | Flushed block sec ex =>
      block ≠ [] ∧ section_of lines sec
      ∧ ex = excluded_section exclude_sections sec
      ∧ Forall not_header block
      ∧ Forall (fun l => SWAPVAR_PATTERN l = None) (tail block)
  end.

(** The loop after the lines [consumed], when every block so far lies
    inside a section: the output is that of [items], whose lines followed
    by the pending block are the consumed lines in their order. *)
Definition ordered (rename_extra_ps : bool) (exclude_sections : gset string)
    (consumed : list string) (st : State) (items : list Item) : Prop :=
  new_lines st = (emit rename_extra_ps items).1
  ∧ all_changes st = (emit rename_extra_ps items).2
  ∧ flat_map item_lines items ++ block_lines st = consumed
  ∧ Forall (item_ok exclude_sections consumed) items
  ∧ Forall not_header (block_lines st)
  ∧ Forall (fun l => SWAPVAR_PATTERN l = None) (tail (block_lines st))
  ∧ (if inside_section st
     then section_of consumed (current_section st)
          ∧ inside_excluded st
            = excluded_section exclude_sections (current_section st)
     else block_lines st = []).

(** Two states of the loop that differ by lines and changes put in front
    of the output, and possibly in [current_swapvar]. *)
Definition shifted (p : list string) (c : list Change) (st st' : State)
    : Prop :=
  new_lines st' = p ++ new_lines st
  ∧ all_changes st' = c ++ all_changes st
  ∧ block_lines st' = block_lines st
  ∧ current_section st' = current_section st
  ∧ inside_section st' = inside_section st
  ∧ inside_excluded st' = inside_excluded st.

(** ** The questions of main *)

(** [while True: choice = input(..).strip().lower();
    if choice in ('y','n'): break], on the inputs still to come: whether
    the choice is ['y'], and the inputs left; [None] when the inputs run
    out before a valid answer ([input] raises [EOFError]).  Only the
    comparison with ['y'] and ['n'] is made of the lower-cased answer, and
    for that ASCII lower-casing decides as [str.lower] does. *)
Fixpoint ask_yn (inputs : list string) : option (bool * list string) :=
  match inputs with
  | [] => None
  | i :: rest =>
      let choice := lower_str (strip i) in
      if bool_decide (choice = "y") then Some (true, rest)
      else if bool_decide (choice = "n") then Some (false, rest)
      else ask_yn rest
  end.

(** The section names main collects from the lines of one file, and from
    the files it walks through. *)
Definition scan_sections (lines : list string) : gset string :=
  list_to_set (List.filter is_header (map strip lines)).

Definition sections_found (files : list (list string)) : gset string :=
  ⋃ (scan_sections <$> files).

(** [for section in <sections>: ...]: a section that matches an
    auto-exclude pattern is added without a question, any other one is
    added when the answer is ['y']. *)
Fixpoint exclude_loop (sections : list string) (inputs : list string)
    (exclude_sections : gset string) : option (gset string * list string) :=
  match sections with
  | [] => Some (exclude_sections, inputs)
  | section :: rest =>
      if AUTO_EXCLUDE_PATTERNS section
      then exclude_loop rest inputs ({[section]} ∪ exclude_sections)
      else
        match ask_yn inputs with
        | Some (yes, inputs') =>
            exclude_loop rest inputs'
              (if yes then {[section]} ∪ exclude_sections
               else exclude_sections)
        | None => None
        end
  end.

(** [exclude_sections] as main builds it, over [sorted(sections_found)]. *)
Definition build_exclude_sections (found : gset string)
    (inputs : list string) : option (gset string * list string) :=
  exclude_loop (merge_sort String.le (elements found)) inputs ∅.

(** An input that the question loop accepts. *)
Definition valid_answer (i : string) : bool :=
  bool_decide (lower_str (strip i) = "y")
  || bool_decide (lower_str (strip i) = "n").

(** Lines that begin a section, or no lines at all: what can follow the
    lines of a section in a file. *)
Definition starts_section (post : list string) : Prop :=
  match post with
  | [] => True
  | h :: _ => is_header_line h = true
  end.

(** ** The routing of the tokenizer *)

(** The line loop of [process_ini_preview] with, in place of the output
    lines and changes, the items that produce them: a line appended to
    [new_lines] is a [Verbatim] item, a flush of [block_lines] under
    [current_section] and [inside_excluded] is a [Flushed] item. *)
Record Router : Type := mkRouter {
  r_items : list Item;
  r_block : list string;
  r_section : option string;
  r_inside : bool;
  r_excluded : bool
}.

(** [if block_lines: <flush>; block_lines.clear()]. *)
Definition route_flush (st : Router) : Router :=
  if bool_decide (r_block st = []) then st
  else
    mkRouter
      (r_items st ++ [Flushed (r_block st) (r_section st) (r_excluded st)])
      [] (r_section st) (r_inside st) (r_excluded st).

(** The body of [for line in lines]. *)
Definition route_step (exclude_sections : gset string) (st : Router)
    (line : string) : Router :=
  let stripped := strip line in
  if is_header stripped then
    let st1 := route_flush st in
    mkRouter (r_items st1 ++ [Verbatim line]) (r_block st1) (Some stripped)
      true
      (AUTO_EXCLUDE_PATTERNS stripped
       || bool_decide (stripped ∈ exclude_sections))
  else
    match SWAPVAR_PATTERN line with
    | Some _ =>
        let st1 := route_flush st in
        mkRouter (r_items st1) (r_block st1 ++ [line]) (r_section st1)
          (r_inside st1) (r_excluded st1)
    | None =>
        if r_inside st && endif_match line then
          mkRouter
            (r_items st
               ++ [Flushed (r_block st ++ [line]) (r_section st)
                     (r_excluded st)])
            [] (r_section st) (r_inside st) (r_excluded st)
        else if r_inside st then
          mkRouter (r_items st) (r_block st ++ [line]) (r_section st)
            (r_inside st) (r_excluded st)
        else
          mkRouter (r_items st ++ [Verbatim line]) (r_block st)
            (r_section st) (r_inside st) (r_excluded st)
    end.

Definition route_initial : Router := mkRouter [] [] None false false.

Definition route_run (exclude_sections : gset string) (lines : list string)
    (st : Router) : Router :=
  fold_left (route_step exclude_sections) lines st.

(** The items of a whole input: the loop and the final flush. *)
Definition route (exclude_sections : gset string) (lines : list string)
    : list Item :=
  r_items (route_flush (route_run exclude_sections lines route_initial)).

(** The lines that go to the output as they are. *)
Definition verbatim_lines (items : list Item) : list string :=
  flat_map (fun it => match it with
                      | Verbatim line => [line]
                      | Flushed _ _ _ => []
                      end) items.

(** The lines before the first section header, and the lines from it
    on. *)
Fixpoint before_header (lines : list string) : list string :=
  match lines with
  | [] => []
  | line :: rest =>
      if is_header_line line then [] else line :: before_header rest
  end.

Fixpoint from_header (lines : list string) : list string :=
  match lines with
  | [] => []
  | line :: rest =>
      if is_header_line line then line :: rest else from_header rest
  end.

(** A line that does not open a swap-conditional. *)
Definition no_swapvar (line : string) : bool :=
  match SWAPVAR_PATTERN line with
  | Some _ => false
  | None => true
  end.

(** A block is flushed under the exclusion flag of its section, not
    excluded when there is none. *)
Definition item_flagged (exclude_sections : gset string) (it : Item) : Prop :=
  match it with
  | Verbatim _ => True
  | Flushed _ sec ex => ex = excluded_section exclude_sections sec
  end.

(** The loop and its routing go together. *)
Definition simulates (rename_extra_ps : bool) (st : State) (rt : Router)
    : Prop :=
  new_lines st = (emit rename_extra_ps (r_items rt)).1
  ∧ all_changes st = (emit rename_extra_ps (r_items rt)).2
  ∧ block_lines st = r_block rt
  ∧ current_section st = r_section rt
  ∧ inside_section st = r_inside rt
  ∧ inside_excluded st = r_excluded rt.

(** What the routing keeps after the lines [consumed]. *)
Definition route_inv (exclude_sections : gset string)
    (consumed : list string) (rt : Router) : Prop :=
  flat_map item_lines (r_items rt) ++ r_block rt ≡ₚ consumed
  ∧ Forall item_nonempty (r_items rt)
  ∧ Forall (item_flagged exclude_sections) (r_items rt)
  ∧ r_excluded rt = excluded_section exclude_sections (r_section rt).

(** ** Facts about the string functions *)

Section string_facts.

Lemma ci_eqb_true a c : ci_eqb a c = true → lower c = lower a.
Proof. unfold ci_eqb. intros H. apply Ascii.eqb_eq in H. congruence. Qed.

Lemma eat_ci_hd a lit s t :
  eat_ci (String a lit) s = Some t → hd_lower s = Some (lower a).
Proof.
  destruct s as [|c s]; cbn; [done|].
  destruct (ci_eqb a c) eqn:E; [|done].
  intros _. by rewrite (ci_eqb_true _ _ E).
Qed.

Lemma eat_hd a lit s t :
  eat (String a lit) s = Some t → hd_lower s = Some (lower a).
Proof.
  destruct s as [|c s]; cbn; [done|].
  destruct (Ascii.eqb a c) eqn:E; [|done].
  apply Ascii.eqb_eq in E. by subst.
Qed.

Lemma eat_hd_exact a lit s t :
  eat (String a lit) s = Some t → ∃ s', s = String a s'.
Proof.
  destruct s as [|c s]; cbn; [done|].
  destruct (Ascii.eqb a c) eqn:E; [|done].
  apply Ascii.eqb_eq in E. subst. eauto.
Qed.

Lemma lstrip_not_space s c t : lstrip s = String c t → is_space c = false.
Proof.
  induction s as [|a s IH]; cbn; [done|].
  destruct (is_space a) eqn:E; [done|]. by intros [= <- <-].
Qed.

Lemma lstrip_idemp s : lstrip (lstrip s) = lstrip s.
Proof.
  induction s as [|a s IH]; cbn; [done|].
  destruct (is_space a) eqn:E; [done|]. cbn. by rewrite E.
Qed.

(** Stripping on the right keeps the first character that is not a
    space. *)
Lemma strip_hd s c t : lstrip s = String c t → ∃ t', strip s = String c t'.
Proof.
  unfold strip. induction s as [|a s IH]; cbn; [done|].
  destruct (is_space a) eqn:E.
  - intros H. destruct (IH H) as [t' Ht'].
    destruct (rstrip s) as [|b r] eqn:Er; [done|].
    cbn. rewrite E. eauto.
  - intros [= <- <-].
    destruct (rstrip s) as [|b r]; cbn; rewrite E; eauto.
Qed.

Lemma strip_hd_lower s : hd_lower (lstrip s) ≠ None →
  hd_lower (strip s) = hd_lower (lstrip s).
Proof.
  destruct (lstrip s) as [|c t] eqn:E; [done|]. intros _.
  destruct (strip_hd _ _ _ E) as [t' ->]. done.
Qed.

Lemma startswith_hd s a p :
  startswith s (String a p) = true → hd_lower s = Some (lower a).
Proof.
  unfold startswith. intros H. apply bool_decide_eq_true in H as [t Ht].
  by eapply eat_hd.
Qed.

(** Leading whitespace does not matter to a substring test when the
    substring starts with a character that is not a space. *)
Lemma contains_lstrip a p s :
  is_space a = false → contains (String a p) (lstrip s) = contains (String a p) s.
Proof.
  intros Ha. induction s as [|c s IH]; [done|].
  cbn [lstrip]. destruct (is_space c) eqn:E; [|done].
  rewrite IH. cbn [contains].
  replace (startswith (String c s) (String a p)) with false; [done|].
  unfold startswith. symmetry. apply bool_decide_eq_false.
  intros [t Ht]. apply eat_hd_exact in Ht as [s' [= -> ->]]. congruence.
Qed.

Lemma eat_append lit s t : eat lit s = Some t → s = lit +:+ t.
Proof.
  revert s. induction lit as [|a lit IH]; intros s; cbn.
  - by intros [= ->].
  - destruct s as [|c s]; [done|].
    destruct (Ascii.eqb a c) eqn:E; [|done].
    apply Ascii.eqb_eq in E as ->. intros H%IH.
    change (String c s = String c (lit +:+ t)). by rewrite <- H.
Qed.

(** On a line whose first characters after the leading whitespace are
    [ps-t0], replacing the first [ps-t0] rewrites exactly those. *)
Lemma replace1_slot_token line t :
  eat "ps-t0" (lstrip line) = Some t →
  ∃ ws, line = ws +:+ "ps-t0" +:+ t
        ∧ replace1 "ps-t0" "ps-t1" line = ws +:+ "ps-t1" +:+ t
        ∧ lstrip (replace1 "ps-t0" "ps-t1" line) = "ps-t1" +:+ t.
Proof.
  induction line as [|c s IH]; [done|].
  cbn [lstrip]. destruct (is_space c) eqn:E.
  - intros H. destruct (IH H) as (ws & Hs & Hr & Hl).
    assert (eat "ps-t0" (String c s) = None) as Hno.
    { destruct (eat "ps-t0" (String c s)) as [u|] eqn:Eu; [|done].
      apply eat_hd_exact in Eu as [s' [= -> ->]]. done. }
    exists (String c ws). split; [|split].
    + change (String c s = String c (ws +:+ "ps-t0" +:+ t)). by rewrite <- Hs.
    + cbn [replace1]. rewrite Hno.
      change (String c (replace1 "ps-t0" "ps-t1" s)
              = String c (ws +:+ "ps-t1" +:+ t)). by rewrite Hr.
    + cbn [replace1]. rewrite Hno. cbn [lstrip]. by rewrite E.
  - intros H. exists "". split; [|split].
    + by apply eat_append in H.
    + cbn [replace1]. by rewrite H.
    + cbn [replace1]. by rewrite H.
Qed.

Lemma rename_cond_target rn line :
  rename_cond rn (lstrip line) = rn && rename_target line.
Proof.
  unfold rename_cond, rename_target.
  rewrite !contains_lstrip by done.
  by rewrite !andb_assoc.
Qed.

End string_facts.

(** ** The patterns exclude one another by their first character *)

Section pattern_facts.

(** Two different first characters for one string. *)
Ltac hd_clash :=
  match goal with
  | H1 : hd_lower ?s = Some _, H2 : hd_lower ?s = Some _ |- _ =>
      rewrite H1 in H2; vm_compute in H2; discriminate
  end.

Lemma SWAPVAR_PATTERN_hd line d :
  SWAPVAR_PATTERN line = Some d →
  hd_lower (lstrip line) = Some (lower "i"%char)
  ∨ hd_lower (lstrip line) = Some (lower "e"%char).
Proof.
  unfold SWAPVAR_PATTERN.
  destruct (eat_ci "if" (lstrip line)) as [t|] eqn:E1.
  { intros _. left. by eapply eat_ci_hd. }
  destruct (eat_ci "else if" (lstrip line)) as [t|] eqn:E2; [|done].
  intros _. right. by eapply eat_ci_hd.
Qed.

Lemma RUN_LINE_PATTERN_hd line :
  RUN_LINE_PATTERN line = true → hd_lower (lstrip line) = Some (lower "r"%char).
Proof.
  unfold RUN_LINE_PATTERN.
  destruct (eat_ci "run" (lstrip line)) as [t|] eqn:E; [|done].
  intros _. by eapply eat_ci_hd.
Qed.

Lemma endif_match_hd line :
  endif_match line = true → hd_lower (lstrip line) = Some (lower "e"%char).
Proof.
  unfold endif_match. intros H. apply bool_decide_eq_true in H as [t Ht].
  by eapply eat_ci_hd.
Qed.

Lemma ps_t_digits_hd s :
  ps_t_digits s = true → hd_lower s = Some (lower "p"%char).
Proof.
  unfold ps_t_digits. destruct (eat "ps-t" s) as [t|] eqn:E; [|done].
  intros _. by eapply eat_hd.
Qed.

Lemma ps_t0_assign_hd s :
  ps_t0_assign s = true → hd_lower s = Some (lower "p"%char).
Proof.
  unfold ps_t0_assign. destruct (eat "ps-t0" s) as [t|] eqn:E; [|done].
  intros _. by eapply eat_hd.
Qed.

Lemma is_header_hd s : is_header s = true → hd_lower s = Some (lower "["%char).
Proof.
  unfold is_header. intros H. apply orb_true_iff in H as [H|H];
    by apply startswith_hd in H.
Qed.

(** A line whose first character after the leading whitespace is known and
    is not a bracket is no section header. *)
Lemma not_header_by_hd line c :
  hd_lower (lstrip line) = Some c → c ≠ lower "["%char → not_header line.
Proof.
  intros H Hc. unfold not_header.
  destruct (is_header (strip line)) eqn:E; [|done].
  apply is_header_hd in E. rewrite strip_hd_lower in E by congruence.
  congruence.
Qed.

Lemma rename_cond_hd rn s :
  rename_cond rn s = true → hd_lower s = Some (lower "p"%char).
Proof.
  unfold rename_cond. intros H.
  apply andb_true_iff in H as [H _]. apply andb_true_iff in H as [H _].
  apply andb_true_iff in H as [_ H]. by apply ps_t0_assign_hd.
Qed.

(** A swap-conditional line is neither a header, a run line nor a slot
    assignment. *)
Lemma SWAPVAR_PATTERN_excl line d :
  SWAPVAR_PATTERN line = Some d →
  not_header line ∧ RUN_LINE_PATTERN line = false
  ∧ ps_t_digits (lstrip line) = false
  ∧ ∀ rn, rename_cond rn (lstrip line) = false.
Proof.
  intros H. apply SWAPVAR_PATTERN_hd in H.
  split; [|split; [|split]].
  - destruct H as [H|H]; by eapply not_header_by_hd.
  - destruct (RUN_LINE_PATTERN line) eqn:E; [|done].
    apply RUN_LINE_PATTERN_hd in E. destruct H as [H|H]; hd_clash.
  - destruct (ps_t_digits (lstrip line)) eqn:E; [|done].
    apply ps_t_digits_hd in E. destruct H as [H|H]; hd_clash.
  - intros rn. destruct (rename_cond rn (lstrip line)) eqn:E; [|done].
    apply rename_cond_hd in E. destruct H as [H|H]; hd_clash.
Qed.

(** An [endif] line is neither a header nor a swap-conditional line. *)
Lemma endif_match_excl line :
  endif_match line = true → not_header line ∧ SWAPVAR_PATTERN line = None.
Proof.
  intros H. split.
  - apply endif_match_hd in H. by eapply not_header_by_hd.
  - unfold endif_match in H. apply bool_decide_eq_true in H as [t Ht].
    unfold SWAPVAR_PATTERN.
    destruct (lstrip line) as [|c0 [|c1 s]]; [done| |].
    { cbn in Ht. by destruct (ci_eqb "e" c0). }
    cbn in Ht |- *.
    destruct (ci_eqb "e" c0) eqn:E0; [|done].
    destruct (ci_eqb "n" c1) eqn:E1; [|done].
    apply ci_eqb_true in E0, E1.
    replace (ci_eqb "i" c0) with false; last first.
    { symmetry. apply not_true_is_false. intros Hi%ci_eqb_true.
      rewrite E0 in Hi. vm_compute in Hi. discriminate. }
    replace (ci_eqb "l" c1) with false; [done|].
    symmetry. apply not_true_is_false. intros Hi%ci_eqb_true.
    rewrite E1 in Hi. vm_compute in Hi. discriminate.
Qed.

(** A run line is not renamed and is no slot assignment. *)
Lemma RUN_LINE_PATTERN_excl line :
  RUN_LINE_PATTERN line = true →
  ps_t_digits (lstrip line) = false ∧ ∀ rn, rename_cond rn (lstrip line) = false.
Proof.
  intros H%RUN_LINE_PATTERN_hd. split.
  - destruct (ps_t_digits (lstrip line)) eqn:E; [|done].
    apply ps_t_digits_hd in E. hd_clash.
  - intros rn. destruct (rename_cond rn (lstrip line)) eqn:E; [|done].
    apply rename_cond_hd in E. hd_clash.
Qed.

End pattern_facts.

(** ** The three loops of process_block_full *)

Section block_facts.

Context (rn : bool) (sec : option string).

Lemma rename_step_block st line :
  p_block (rename_step rn sec st line) = p_block st ++ [rename_line rn line].
Proof.
  unfold rename_step, rename_line. rewrite rename_cond_target.
  by destruct (rn && rename_target line).
Qed.

Lemma rename_step_changes st line :
  p_changes (rename_step rn sec st line)
  = p_changes st ++ rename_record rn sec line.
Proof.
  unfold rename_step, rename_record. rewrite rename_cond_target.
  destruct (rn && rename_target line); cbn; [done|]. by rewrite app_nil_r.
Qed.

Lemma rename_fold_block block st :
  p_block (fold_left (rename_step rn sec) block st)
  = p_block st ++ map (rename_line rn) block.
Proof.
  revert st. induction block as [|line block IH]; intros st; cbn.
  - by rewrite app_nil_r.
  - rewrite IH, rename_step_block, <- app_assoc. done.
Qed.

Lemma rename_fold_changes block st :
  p_changes (fold_left (rename_step rn sec) block st)
  = p_changes st ++ flat_map (rename_record rn sec) block.
Proof.
  revert st. induction block as [|line block IH]; intros st; cbn.
  - by rewrite app_nil_r.
  - rewrite IH, rename_step_changes, <- app_assoc. done.
Qed.

Lemma rename_record_Renamed line :
  Forall (fun c => is_Renamed c = true) (rename_record rn sec line).
Proof.
  unfold rename_record. destruct (rn && rename_target line); repeat constructor.
Qed.

Lemma rename_records_Renamed block :
  Forall (fun c => is_Renamed c = true) (flat_map (rename_record rn sec) block).
Proof.
  induction block as [|line block IH]; cbn; [constructor|].
  apply Forall_app. split; [apply rename_record_Renamed | done].
Qed.

(** A run line goes through the first loop as it is. *)
Lemma rename_line_run line :
  RUN_LINE_PATTERN line = true → rename_line rn line = line.
Proof.
  intros [_ H]%RUN_LINE_PATTERN_excl. unfold rename_line.
  rewrite <- rename_cond_target. by rewrite H.
Qed.

Context (last : gmap nat nat) (correct : string).

(** The second loop only drops lines and only adds removal records. *)
Lemma remove_loop_lines i nb temp ch l :
  l ∈ (remove_loop last correct sec i nb temp ch).1 →
  l ∈ temp ∨ (l ∈ nb ∧ (RUN_LINE_PATTERN l = false ∨ l = correct)).
Proof.
  revert i temp ch. induction nb as [|line nb IH]; intros i temp ch; cbn.
  { auto. }
  destruct (RUN_LINE_PATTERN line) eqn:Erun.
  - destruct (keep_run last correct i line) eqn:Ek.
    + intros [H|[H ?]]%IH.
      * apply elem_of_app in H as [H|H]; [auto|].
        apply list_elem_of_singleton in H as ->. right. split; [left|].
        right. unfold keep_run in Ek. destruct (last !! indent_of line); [|done].
        apply andb_true_iff in Ek as [_ Ek]. by apply bool_decide_eq_true in Ek.
      * right. split; [by right | done].
    + intros [H|[H ?]]%IH; [auto|]. right. split; [by right | done].
  - intros [H|[H ?]]%IH.
    + apply elem_of_app in H as [H|H]; [auto|].
      apply list_elem_of_singleton in H as ->. right. split; [left | auto].
    + right. split; [by right | done].
Qed.

Lemma remove_loop_changes i nb temp ch :
  ∃ rs, (remove_loop last correct sec i nb temp ch).2 = ch ++ rs
        ∧ Forall (fun c => is_RemovedDirective c = true) rs.
Proof.
  revert i temp ch. induction nb as [|line nb IH]; intros i temp ch; cbn.
  { exists []. by rewrite app_nil_r. }
  destruct (RUN_LINE_PATTERN line); [destruct (keep_run last correct i line)|];
    try apply IH.
  destruct (IH (S i) temp (ch ++ [RemovedDirective sec (strip line)]))
    as (rs & -> & Hrs).
  exists (RemovedDirective sec (strip line) :: rs).
  rewrite <- app_assoc. split; [done|]. by constructor.
Qed.

Lemma remove_loop_records i nb temp ch l :
  l ∈ nb → RUN_LINE_PATTERN l = true → l ≠ correct →
  RemovedDirective sec (strip l) ∈ (remove_loop last correct sec i nb temp ch).2.
Proof.
  intros Hin Hrun Hne. revert i temp ch Hin.
  induction nb as [|line nb IH]; intros i temp ch Hin; [by inversion Hin|].
  cbn. apply elem_of_cons in Hin as [->|Hin].
  - rewrite Hrun. replace (keep_run last correct i line) with false; last first.
    { symmetry. apply not_true_is_false. unfold keep_run.
      destruct (last !! indent_of line); [|done].
      intros [_ ?%bool_decide_eq_true]%andb_true_iff. done. }
    destruct (remove_loop_changes (S i) nb temp
                (ch ++ [RemovedDirective sec (strip line)])) as (rs & -> & _).
    set_solver.
  - destruct (RUN_LINE_PATTERN line); [destruct (keep_run last correct i line)|];
      by apply IH.
Qed.

(** The third loop only inserts [correct] and only adds insertion
    records. *)
Lemma insert_fold_lines items st l :
  l ∈ p_block (fold_left (insert_step correct sec) items st) →
  l ∈ p_block st ∨ l = correct.
Proof.
  revert st. induction items as [|it items IH]; intros st; cbn; [auto|].
  intros [H|H]%IH; [|auto]. unfold insert_step in H.
  case_bool_decide; [auto|]. cbn in H. unfold list_insert_at in H.
  apply elem_of_app in H as [H|H].
  - left. by eapply subseteq_take.
  - apply elem_of_cons in H as [->|H]; [auto|]. left. by eapply subseteq_drop.
Qed.

Lemma insert_fold_changes items st :
  ∃ adds, p_changes (fold_left (insert_step correct sec) items st)
          = p_changes st ++ adds
          ∧ Forall (fun c => is_AddedDirective c = true) adds.
Proof.
  revert st. induction items as [|it items IH]; intros st; cbn.
  { exists []. by rewrite app_nil_r. }
  destruct (IH (insert_step correct sec st it)) as (adds & -> & Hadds).
  unfold insert_step. case_bool_decide; [eauto|]. cbn.
  exists (AddedDirective sec (strip correct) :: adds).
  rewrite <- app_assoc. split; [done|]. by constructor.
Qed.

End block_facts.

(** ** The table of last slot positions, and blocks without run lines *)

Section table_facts.

Context (rn : bool) (sec : option string).

Lemma rename_step_length st line :
  length (p_block (rename_step rn sec st line)) = S (length (p_block st)).
Proof. rewrite rename_step_block, length_app. cbn. lia. Qed.

Lemma rename_step_last st line d :
  p_last (rename_step rn sec st line) !! d
  = if ps_t_digits (lstrip line) && (indent_of line =? d)
    then Some (length (p_block st)) else p_last st !! d.
Proof.
  unfold rename_step, indent_of.
  set (ind := String.length line - String.length (lstrip line)).
  destruct (rename_cond rn (lstrip line)); cbn [p_last];
    rewrite length_app; cbn [length];
    replace (length (p_block st) + 1 - 1) with (length (p_block st)) by lia;
    (destruct (ps_t_digits (lstrip line)); cbn [andb]; [|done]);
    (destruct (Nat.eqb_spec ind d) as [->|Hne];
       [by rewrite lookup_insert_eq | by rewrite lookup_insert_ne]).
Qed.

(** [last_ps_indices] after the first loop: at every indentation, the
    position of the last slot assignment with that indentation. *)
Lemma rename_fold_last block st d :
  p_last (fold_left (rename_step rn sec) block st) !! d
  = match last_slot_from d (length (p_block st)) block with
    | Some j => Some j
    | None => p_last st !! d
    end.
Proof.
  revert st. induction block as [|line block IH]; intros st; [done|].
  cbn [fold_left last_slot_from]. rewrite IH, rename_step_length.
  destruct (last_slot_from d (S (length (p_block st))) block); [done|].
  rewrite rename_step_last.
  by destruct (ps_t_digits (lstrip line) && (indent_of line =? d)).
Qed.

Lemma rename_pass_last block d :
  p_last (rename_pass rn sec block) !! d = last_slot_from d 0 block.
Proof.
  unfold rename_pass. rewrite rename_fold_last. cbn.
  by destruct (last_slot_from d 0 block).
Qed.

Lemma last_slot_from_other d d' i block :
  Forall (fun l => ps_t_digits (lstrip l) = true → indent_of l = d) block →
  d' ≠ d → last_slot_from d' i block = None.
Proof.
  intros Hb Hne. revert i.
  induction Hb as [|l block Hl _ IH]; intros i; [done|].
  cbn. rewrite IH. destruct (ps_t_digits (lstrip l)); [|done].
  cbn. destruct (Nat.eqb_spec (indent_of l) d'); [|done].
  specialize (Hl eq_refl). congruence.
Qed.

(** A renamed line is no run line. *)
Lemma rename_line_not_run line :
  RUN_LINE_PATTERN line = false → RUN_LINE_PATTERN (rename_line rn line) = false.
Proof.
  intros Hrun. unfold rename_line.
  destruct (rn && rename_target line) eqn:E; [|done].
  apply andb_true_iff in E as [_ E]. unfold rename_target in E.
  apply andb_true_iff in E as [E _]. apply andb_true_iff in E as [E _].
  unfold ps_t0_assign in E.
  destruct (eat "ps-t0" (lstrip line)) as [t|] eqn:Et; [|done].
  destruct (replace1_slot_token line t Et) as (ws & _ & _ & Hl).
  destruct (RUN_LINE_PATTERN (replace1 "ps-t0" "ps-t1" line)) eqn:Er; [|done].
  apply RUN_LINE_PATTERN_hd in Er. rewrite Hl in Er. vm_compute in Er.
  discriminate.
Qed.

Lemma remove_loop_no_run last correct i nb temp ch :
  Forall (fun l => RUN_LINE_PATTERN l = false) nb →
  remove_loop last correct sec i nb temp ch = (temp ++ nb, ch).
Proof.
  intros Hnb. revert i temp.
  induction Hnb as [|l nb Hl _ IH]; intros i temp; cbn.
  - by rewrite app_nil_r.
  - rewrite Hl, IH, <- app_assoc. done.
Qed.

Lemma sorted_items_empty : sorted_items ∅ = [].
Proof. unfold sorted_items. by rewrite map_to_list_empty. Qed.

Lemma sorted_items_singleton d j : sorted_items {[d := j]} = [(d, j)].
Proof. unfold sorted_items. by rewrite map_to_list_singleton. Qed.

End table_facts.

(** A block without run lines whose slot assignments all have indentation
    [d]: the lines of the first loop come back with the correct run line
    inserted right after the last slot assignment, and the changes are the
    renames and one insertion; without a slot assignment nothing is
    inserted. *)
Lemma process_block_full_fresh rn sec block d :
  Forall (fun l => RUN_LINE_PATTERN l = false) block →
  Forall (fun l => ps_t_digits (lstrip l) = true → indent_of l = d) block →
  process_block_full rn block sec false
  = match last_slot_from d 0 block with
    | Some j =>
        (list_insert_at (j + 1) (correct_run block)
           (map (rename_line rn) block),
         flat_map (rename_record rn sec) block
           ++ [AddedDirective sec (strip (correct_run block))])
    | None => (map (rename_line rn) block, flat_map (rename_record rn sec) block)
    end.
Proof.
  intros Hrun Hdepth. unfold process_block_full.
  case_bool_decide as Hb; cbn [orb]; [by subst|].
  set (p1 := rename_pass rn sec block).
  assert (p_block p1 = map (rename_line rn) block) as Hblock.
  { unfold p1, rename_pass. by rewrite rename_fold_block. }
  assert (p_changes p1 = flat_map (rename_record rn sec) block) as Hch.
  { unfold p1, rename_pass. by rewrite rename_fold_changes. }
  assert (Forall (fun l => RUN_LINE_PATTERN l = false) (p_block p1)) as Hrun1.
  { rewrite Hblock. apply Forall_fmap. eapply Forall_impl; [exact Hrun|].
    intros l. apply rename_line_not_run. }
  rewrite remove_loop_no_run by done. cbn [app].
  assert (p_last p1 = match last_slot_from d 0 block with
                      | Some j => {[d := j]} | None => ∅ end) as Hlast.
  { apply map_eq. intros d'. unfold p1. rewrite rename_pass_last.
    destruct (decide (d' = d)) as [->|Hne].
    - destruct (last_slot_from d 0 block);
        [by rewrite lookup_singleton_eq | by rewrite lookup_empty].
    - rewrite (last_slot_from_other d d' 0 block) by done.
      destruct (last_slot_from d 0 block);
        [by rewrite lookup_singleton_ne | by rewrite lookup_empty]. }
  rewrite Hlast. destruct (last_slot_from d 0 block) as [j|].
  - rewrite sorted_items_singleton. cbn [fold_left]. unfold insert_step.
    cbn [p_block p_changes snd].
    case_bool_decide as Hin.
    + exfalso. apply list_elem_of_lookup_2 in Hin.
      rewrite Forall_forall in Hrun1. apply Hrun1 in Hin.
      unfold correct_run in Hin. by destruct (has_normal block).
    + cbn. by rewrite Hblock, Hch.
  - rewrite sorted_items_empty. cbn. by rewrite Hblock, Hch.
Qed.

(** ** Statements about process_block_full *)

Lemma filter_all_true {A} (f : A → bool) l :
  Forall (fun x => f x = true) l → List.filter f l = l.
Proof.
  induction 1 as [|x l Hx _ IH]; cbn; [done|]. by rewrite Hx, IH.
Qed.

Lemma filter_all_false {A} (f : A → bool) l :
  Forall (fun x => f x = false) l → List.filter f l = [].
Proof.
  induction 1 as [|x l Hx _ IH]; cbn; [done|]. by rewrite Hx.
Qed.

(** The change list of a block that is processed: the records of the first
    loop, then removals, then insertions. *)
Lemma process_block_full_changes rn sec block :
  ∃ rs adds,
    (process_block_full rn block sec false).2
    = flat_map (rename_record rn sec) block ++ rs ++ adds
    ∧ Forall (fun c => is_RemovedDirective c = true) rs
    ∧ Forall (fun c => is_AddedDirective c = true) adds.
Proof.
  unfold process_block_full. case_bool_decide as Hb; cbn [orb].
  { subst. exists [], []. by repeat constructor. }
  set (p1 := rename_pass rn sec block).
  destruct (remove_loop (p_last p1) (correct_run block) sec 0 (p_block p1) []
              (p_changes p1)) as [temp ch] eqn:Erm.
  destruct (remove_loop_changes sec (p_last p1) (correct_run block) 0
              (p_block p1) [] (p_changes p1)) as (rs & Hrs & Frs).
  rewrite Erm in Hrs. cbn in Hrs. subst ch.
  destruct (insert_fold_changes sec (correct_run block)
              (sorted_items (p_last p1))
              (mkPass1 temp (p_changes p1 ++ rs) (p_last p1)))
    as (adds & Hadds & Fadds).
  exists rs, adds. cbn [snd]. rewrite Hadds. cbn [p_changes].
  unfold p1, rename_pass. rewrite rename_fold_changes. cbn [p_changes app].
  by rewrite <- app_assoc.
Qed.

(** The lines of a processed block: every run line among them is the
    correct run line. *)
Lemma process_block_full_run_lines rn sec block l :
  l ∈ (process_block_full rn block sec false).1 →
  RUN_LINE_PATTERN l = true → l = correct_run block.
Proof.
  unfold process_block_full. case_bool_decide as Hb; cbn [orb].
  { subst. by intros ?%elem_of_nil. }
  set (p1 := rename_pass rn sec block).
  destruct (remove_loop (p_last p1) (correct_run block) sec 0 (p_block p1) []
              (p_changes p1)) as [temp ch] eqn:Erm.
  cbn [fst]. intros [Hl|Hl]%insert_fold_lines Hrun; [|done].
  cbn [p_block] in Hl.
  pose proof (remove_loop_lines sec (p_last p1) (correct_run block) 0
                (p_block p1) [] (p_changes p1) l) as Hrl.
  rewrite Erm in Hrl. destruct (Hrl Hl) as [?%elem_of_nil|[_ [?|?]]];
    [done|congruence|done].
Qed.

Lemma indent_of_correct_run block : indent_of (correct_run block) = 0.
Proof. unfold correct_run. by destruct (has_normal block). Qed.

(** C5: the first loop renames exactly the lines that, after their leading
    whitespace, match [ps-t0\s*=] and that contain both [Extra] and
    [Diffuse], and only when the rename option is on: such a line has its
    first [ps-t0], the slot token after the leading whitespace, replaced by
    [ps-t1] and gets one Renamed record; every other line keeps its text;
    and the Renamed records of the whole transformation are exactly
    those. *)
Theorem rename_scope rn sec block :
  p_block (rename_pass rn sec block) = map (rename_line rn) block
  ∧ p_changes (rename_pass rn sec block) = flat_map (rename_record rn sec) block
  ∧ List.filter is_Renamed (process_block_full rn block sec false).2
    = flat_map (rename_record rn sec) block
  ∧ (∀ line, rename_target line = true →
       ∃ ws rest,
         line = ws +:+ "ps-t0" +:+ rest
         ∧ lstrip line = "ps-t0" +:+ rest
         ∧ rename_line true line = ws +:+ "ps-t1" +:+ rest
         ∧ rename_line false line = line).
Proof.
  split; [|split; [|split]].
  - unfold rename_pass. by rewrite rename_fold_block.
  - unfold rename_pass. by rewrite rename_fold_changes.
  - destruct (process_block_full_changes rn sec block)
      as (rs & adds & -> & Frs & Fadds).
    rewrite !List.filter_app.
    rewrite (filter_all_true is_Renamed) by apply rename_records_Renamed.
    rewrite (filter_all_false is_Renamed rs), (filter_all_false is_Renamed adds).
    + by rewrite !app_nil_r.
    + eapply Forall_impl; [done|]. by intros [].
    + eapply Forall_impl; [done|]. by intros [].
  - intros line Ht. unfold rename_line. rewrite Ht. cbn [andb].
    unfold rename_target in Ht.
    apply andb_true_iff in Ht as [Ht _]. apply andb_true_iff in Ht as [Ht _].
    unfold ps_t0_assign in Ht.
    destruct (eat "ps-t0" (lstrip line)) as [t|] eqn:E; [|done].
    destruct (replace1_slot_token line t E) as (ws & H1 & H2 & _).
    exists ws, t. by apply eat_append in E.
Qed.

Lemma rename_scope_witness :
  ∃ ws rest,
    ln "  ps-t0 = ResourceExtraDiffuse" = ws +:+ "ps-t0" +:+ rest
    ∧ lstrip (ln "  ps-t0 = ResourceExtraDiffuse") = "ps-t0" +:+ rest
    ∧ rename_line true (ln "  ps-t0 = ResourceExtraDiffuse")
      = ws +:+ "ps-t1" +:+ rest
    ∧ rename_line false (ln "  ps-t0 = ResourceExtraDiffuse")
      = ln "  ps-t0 = ResourceExtraDiffuse".
Proof.
  apply (proj2 (proj2 (proj2 (rename_scope true None [])))
           (ln "  ps-t0 = ResourceExtraDiffuse")).
  reflexivity.
Defined.

(** C9: run lines are handled only as the exact string without
    indentation: the correct run line has indentation 0, every run line of
    the result is that string, and a run line of the block that has leading
    whitespace is removed, with a RemovedDirective record, wherever it
    stands and whatever target it names. *)
Theorem run_lines_unindented rn sec block :
  indent_of (correct_run block) = 0
  ∧ (∀ l, l ∈ (process_block_full rn block sec false).1 →
          RUN_LINE_PATTERN l = true → l = correct_run block)
  ∧ (∀ l, l ∈ block → RUN_LINE_PATTERN l = true → indent_of l ≠ 0 →
          (l ∉ (process_block_full rn block sec false).1)
          ∧ (RemovedDirective sec (strip l)
               ∈ (process_block_full rn block sec false).2)).
Proof.
  split; [apply indent_of_correct_run|].
  split; [apply process_block_full_run_lines|].
  intros l Hl Hrun Hind.
  assert (l ≠ correct_run block) as Hne.
  { intros ->. by rewrite indent_of_correct_run in Hind. }
  split.
  { intros Hout. by apply process_block_full_run_lines in Hout. }
  unfold process_block_full. case_bool_decide as Hb; cbn [orb].
  { subst. by apply elem_of_nil in Hl. }
  set (p1 := rename_pass rn sec block).
  assert (l ∈ p_block p1) as Hl1.
  { unfold p1, rename_pass. rewrite rename_fold_block. cbn.
    apply list_elem_of_fmap. exists l. by rewrite rename_line_run. }
  pose proof (remove_loop_records sec (p_last p1) (correct_run block) 0
                (p_block p1) [] (p_changes p1) l Hl1 Hrun Hne) as Hrec.
  destruct (remove_loop (p_last p1) (correct_run block) sec 0 (p_block p1) []
              (p_changes p1)) as [temp ch] eqn:Erm.
  cbn [snd] in *.
  destruct (insert_fold_changes sec (correct_run block)
              (sorted_items (p_last p1)) (mkPass1 temp ch (p_last p1)))
    as (adds & -> & _).
  cbn. set_solver.
Qed.

Lemma run_lines_unindented_witness :
  RemovedDirective None "run = CommandList\global\ORFix\NNFix"
    ∈ (process_block_full false
         [ln "  ps-t0 = ResourceBodyDiffuse";
          ln "  run = CommandList\global\ORFix\NNFix"] None false).2.
Proof.
  apply (proj2 (proj2 (run_lines_unindented false None
           [ln "  ps-t0 = ResourceBodyDiffuse";
            ln "  run = CommandList\global\ORFix\NNFix"]))
           (ln "  run = CommandList\global\ORFix\NNFix")).
  - apply list_elem_of_In. right. left. reflexivity.
  - reflexivity.
  - vm_compute. discriminate.
Defined.

(** C6: the block with an Extra-Diffuse [ps-t0] and a NormalMap [ps-t1],
    rename on: the [ps-t0] line is renamed, the ORFix run line is inserted
    after the last slot line and before [endif], and the changes are one
    Renamed and one AddedDirective. *)
Theorem example_two_slots sec :
  process_block_full true block_two_slots sec false
  = ([ln "if $swapvar == 0"; ln "ps-t1 = ResourceExtraDiffuse";
      ln "ps-t1 = ResourceNormalMap"; ORFix_run; ln "endif"],
     [Renamed sec (ln "ps-t0 = ResourceExtraDiffuse")
        (ln "ps-t1 = ResourceExtraDiffuse");
      AddedDirective sec "run = CommandList\global\ORFix\ORFix"]).
Proof. vm_compute. reflexivity. Qed.

(** C4: on the block with a stray NNFix run line between the two slot
    lines, rename on, the stray line is removed and the ORFix run line is
    added, but at the index computed before the removal: it lands after
    [endif], not after the last slot line. *)
Theorem example_stray_run sec :
  process_block_full true block_stray_run sec false
  = ([ln "if $swapvar == 0"; ln "ps-t1 = ResourceExtraDiffuse";
      ln "ps-t1 = ResourceNormalMap"; ln "endif"; ORFix_run],
     [Renamed sec (ln "ps-t0 = ResourceExtraDiffuse")
        (ln "ps-t1 = ResourceExtraDiffuse");
      RemovedDirective sec "run = CommandList\global\ORFix\NNFix";
      AddedDirective sec "run = CommandList\global\ORFix\ORFix"]).
Proof. vm_compute. reflexivity. Qed.

(** C1: two blocks on which the run line does not follow the last slot
    assignment, so that directive correctness fails at depth 0 and at
    depth 4.  With a run line removed before the last slot line, the
    insertion index is one too far; with slots at two depths, the second
    insertion uses the index taken before the first insertion. *)
Theorem example_run_not_after_last_slot sec :
  let out := (process_block_full false block_run_between_slots sec false).1 in
  let out' := (process_block_full false block_two_depths sec false).1 in
  out = [ln "ps-t0 = ResourceBodyDiffuse"; ln "ps-t1 = ResourceBodyLightMap";
         ln "ib = ResourceBodyIB"; NNFix_run; ln "drawindexed = auto"]
  ∧ directive_correct_at (correct_run block_run_between_slots) out 0 = false
  ∧ out' = [ln "ps-t0 = ResourceBodyDiffuse"; NNFix_run; ln "if $costume == 1";
            NNFix_run; ln "    ps-t1 = ResourceBodyLightMap"; ln "endif"]
  ∧ directive_correct_at (correct_run block_two_depths) out' 4 = false.
Proof. cbv zeta. repeat split; vm_compute; reflexivity. Qed.

(** C2: a second application is not always silent.  On the block with a
    wrong-target run line between two slot lines the second application
    moves the run line and records two changes; on the block with an
    indented slot line it returns the same lines and still records a
    removal and an insertion. *)
Theorem example_second_pass sec :
  let once := (process_block_full false block_wrong_target sec false).1 in
  let once' := (process_block_full false block_indented_slot sec false).1 in
  once = [ln "if $swapvar == 0"; ln "ps-t0 = ResourceBodyDiffuse";
          ln "ps-t1 = ResourceBodyLightMap"; ln "endif"; NNFix_run]
  ∧ process_block_full false once sec false
    = ([ln "if $swapvar == 0"; ln "ps-t0 = ResourceBodyDiffuse";
        ln "ps-t1 = ResourceBodyLightMap"; NNFix_run; ln "endif"],
       [RemovedDirective sec "run = CommandList\global\ORFix\NNFix";
        AddedDirective sec "run = CommandList\global\ORFix\NNFix"])
  ∧ process_block_full false once sec false ≠ (once, [])
  ∧ once' = [ln "if $swapvar == 0"; ln "    ps-t0 = ResourceBodyDiffuse";
             NNFix_run; ln "endif"]
  ∧ process_block_full false once' sec false
    = (once',
       [RemovedDirective sec "run = CommandList\global\ORFix\NNFix";
        AddedDirective sec "run = CommandList\global\ORFix\NNFix"])
  ∧ process_block_full false once' sec false ≠ (once', []).
Proof.
  cbv zeta. repeat split; try (vm_compute; reflexivity);
    vm_compute; discriminate.
Qed.

(** ** The line loop *)

Section tokenizer_facts.

Context (rn : bool) (excl : gset string).

Lemma run_lines_app a b st :
  run_lines rn excl (a ++ b) st = run_lines rn excl b (run_lines rn excl a st).
Proof. apply fold_left_app. Qed.

Lemma run_lines_cons l lines st :
  run_lines rn excl (l :: lines) st
  = run_lines rn excl lines (step rn excl st l).
Proof. done. Qed.

Lemma process_block_full_excluded block sec :
  process_block_full rn block sec true = (block, []).
Proof. unfold process_block_full. by rewrite orb_true_r. Qed.

Lemma process_block_full_nil sec ex :
  process_block_full rn [] sec ex = ([], []).
Proof. done. Qed.

(** The final flush is the flush that a boundary line performs. *)
Lemma finish_flush_pending st :
  finish rn st
  = (all_changes (flush_pending rn st), new_lines (flush_pending rn st)).
Proof.
  unfold finish, flush_pending. case_bool_decide; [done|].
  by destruct (flush rn st).
Qed.

Lemma flush_pending_block st : block_lines (flush_pending rn st) = [].
Proof.
  unfold flush_pending. case_bool_decide; [done|]. by destruct (flush rn st).
Qed.

Lemma flush_pending_flags st :
  current_section (flush_pending rn st) = current_section st
  ∧ inside_section (flush_pending rn st) = inside_section st
  ∧ inside_excluded (flush_pending rn st) = inside_excluded st.
Proof.
  unfold flush_pending. case_bool_decide; [done|]. by destruct (flush rn st).
Qed.

(** The steps by the kind of line. *)
Lemma step_header st line :
  is_header (strip line) = true →
  step rn excl st line
  = mkState (new_lines (flush_pending rn st) ++ [line]) [] (Some (strip line))
      true
      (AUTO_EXCLUDE_PATTERNS (strip line)
       || bool_decide (strip line ∈ excl))
      None (all_changes (flush_pending rn st)).
Proof. intros H. unfold step. by rewrite H, flush_pending_block. Qed.

Lemma step_swapvar st line d :
  not_header line → SWAPVAR_PATTERN line = Some d →
  step rn excl st line
  = mkState (new_lines (flush_pending rn st)) [line] (current_section st)
      (inside_section st) (inside_excluded st) (Some d)
      (all_changes (flush_pending rn st)).
Proof.
  intros H1 H2. unfold step. rewrite H1, H2, flush_pending_block.
  by destruct (flush_pending_flags st) as (-> & -> & ->).
Qed.

Lemma step_outside st line :
  not_header line → SWAPVAR_PATTERN line = None → inside_section st = false →
  step rn excl st line
  = mkState (new_lines st ++ [line]) (block_lines st) (current_section st)
      (inside_section st) (inside_excluded st) (current_swapvar st)
      (all_changes st).
Proof. intros H1 H2 H3. unfold step. by rewrite H1, H2, H3. Qed.

Lemma step_keeps_outside st line :
  not_header line → outside st → outside (step rn excl st line).
Proof.
  intros Hh (H1 & H2 & H3). unfold outside, step. rewrite Hh.
  destruct (flush_pending_flags st) as (F1 & F2 & F3).
  destruct (SWAPVAR_PATTERN line); cbn; [by rewrite F1, F2, F3|].
  by rewrite H1.
Qed.

Lemma run_lines_keeps_outside pre st :
  Forall not_header pre → outside st → outside (run_lines rn excl pre st).
Proof.
  intros Hpre. revert st. induction Hpre as [|l pre Hl _ IH]; intros st Hst.
  - done.
  - rewrite run_lines_cons. apply IH. by apply step_keeps_outside.
Qed.

Lemma outside_initial : outside initial_state.
Proof. done. Qed.

(** The output only grows. *)
Lemma flush_new_lines st : ∃ k, (flush rn st).1 = new_lines st ++ k.
Proof.
  unfold flush.
  destruct (process_block_full rn (block_lines st) (current_section st)
              (inside_excluded st)) as [p c]. by exists p.
Qed.

Lemma flush_pending_new_lines st :
  ∃ k, new_lines (flush_pending rn st) = new_lines st ++ k.
Proof.
  unfold flush_pending. case_bool_decide.
  - exists []. by rewrite app_nil_r.
  - destruct (flush_new_lines st) as [k Hk].
    destruct (flush rn st) as [a b]. by exists k.
Qed.

Lemma step_new_lines st line :
  ∃ k, new_lines (step rn excl st line) = new_lines st ++ k.
Proof.
  unfold step. destruct (flush_pending_new_lines st) as [k Hk].
  destruct (is_header (strip line)).
  { cbn. rewrite Hk, <- app_assoc. eauto. }
  destruct (SWAPVAR_PATTERN line); [cbn; eauto|].
  destruct (inside_section st && endif_match line).
  { match goal with |- context [flush rn ?s] =>
      destruct (flush_new_lines s) as [k' Hk']; destruct (flush rn s) end.
    cbn in *. eauto. }
  destruct (inside_section st); cbn; [|eauto].
  exists []. by rewrite app_nil_r.
Qed.

Lemma run_lines_new_lines lines st :
  ∃ k, new_lines (run_lines rn excl lines st) = new_lines st ++ k.
Proof.
  revert st. induction lines as [|l lines IH]; intros st.
  - exists []. cbn. by rewrite app_nil_r.
  - rewrite run_lines_cons.
    destruct (IH (step rn excl st l)) as [k ->].
    destruct (step_new_lines st l) as [k' ->].
    rewrite <- app_assoc. eauto.
Qed.

Lemma finish_new_lines st : ∃ k, (finish rn st).2 = new_lines st ++ k.
Proof. rewrite finish_flush_pending. apply flush_pending_new_lines. Qed.

(** Inside an excluded section every line comes out as it went in. *)
Lemma flush_pending_excluded st :
  inside_excluded st = true →
  new_lines (flush_pending rn st) = new_lines st ++ block_lines st
  ∧ all_changes (flush_pending rn st) = all_changes st.
Proof.
  intros He. unfold flush_pending. case_bool_decide as Hb.
  - by rewrite Hb, app_nil_r.
  - unfold flush. rewrite He, process_block_full_excluded. cbn.
    by rewrite app_nil_r.
Qed.

Lemma step_excluded st line :
  not_header line → inside_section st = true → inside_excluded st = true →
  let st' := step rn excl st line in
  inside_section st' = true ∧ inside_excluded st' = true
  ∧ all_changes st' = all_changes st
  ∧ new_lines st' ++ block_lines st'
    = new_lines st ++ block_lines st ++ [line].
Proof.
  intros Hh Hs He. cbn zeta. unfold step. rewrite Hh, Hs.
  destruct (flush_pending_excluded st He) as [Hn Hc].
  destruct (flush_pending_flags st) as (F1 & F2 & F3).
  destruct (SWAPVAR_PATTERN line).
  { cbn. rewrite F2, F3, Hn, Hc, flush_pending_block, <- app_assoc. done. }
  cbn [andb]. destruct (endif_match line).
  - unfold flush. cbn. rewrite He, process_block_full_excluded. cbn.
    by rewrite !app_nil_r.
  - cbn. done.
Qed.

Lemma run_lines_excluded rest st :
  Forall not_header rest → inside_section st = true →
  inside_excluded st = true →
  finish rn (run_lines rn excl rest st)
  = (all_changes st, new_lines st ++ block_lines st ++ rest).
Proof.
  intros Hrest. revert st.
  induction Hrest as [|l rest Hl _ IH]; intros st Hs He.
  - cbn. rewrite finish_flush_pending.
    destruct (flush_pending_excluded st He) as [-> ->]. by rewrite app_nil_r.
  - rewrite run_lines_cons.
    destruct (step_excluded st l Hl Hs He) as (Hs' & He' & Hc & Hn).
    rewrite IH by done. rewrite Hc, app_assoc, Hn, <- !app_assoc. done.
Qed.

(** A block made of one swap-conditional line is left as it is. *)
Lemma process_block_full_swapvar_only line d sec :
  SWAPVAR_PATTERN line = Some d →
  process_block_full rn [line] sec false = ([line], []).
Proof.
  intros (_ & Hrun & Hps & Hren)%SWAPVAR_PATTERN_excl.
  unfold process_block_full. cbn [bool_decide orb].
  unfold rename_pass. cbn [fold_left]. unfold rename_step.
  rewrite Hren, Hps. cbn. by rewrite Hrun.
Qed.

(** Outside a section, lines that open nothing go straight to the
    output. *)
Lemma run_lines_outside rest st :
  Forall (fun x => not_header x ∧ SWAPVAR_PATTERN x = None) rest →
  inside_section st = false →
  run_lines rn excl rest st
  = mkState (new_lines st ++ rest) (block_lines st) (current_section st)
      (inside_section st) (inside_excluded st) (current_swapvar st)
      (all_changes st).
Proof.
  intros Hrest. revert st.
  induction Hrest as [|l rest [Hl Hsw] _ IH]; intros st Hs.
  - cbn. rewrite app_nil_r. by destruct st.
  - rewrite run_lines_cons, step_outside by done. rewrite IH by done. cbn.
    by rewrite <- app_assoc.
Qed.

End tokenizer_facts.

(** ** Statements about process_ini_preview *)

(** C8: an [endif] line met before any section header makes the loop
    neither stop nor flush: the line is appended to the output as it is,
    no other variable of the loop changes, and the line stays at that
    place of the returned lines. *)
Theorem endif_outside_section rn excl pre l post :
  Forall not_header pre →
  endif_match l = true →
  let st := run_lines rn excl pre initial_state in
  run_lines rn excl (pre ++ [l]) initial_state
  = mkState (new_lines st ++ [l]) (block_lines st) (current_section st)
      (inside_section st) (inside_excluded st) (current_swapvar st)
      (all_changes st)
  ∧ ∃ tail, (process_ini_preview rn excl (pre ++ l :: post)).2
            = new_lines st ++ l :: tail.
Proof.
  intros Hpre Hl. cbn zeta.
  destruct (endif_match_excl l Hl) as [Hh Hsw].
  destruct (run_lines_keeps_outside rn excl pre initial_state Hpre
              outside_initial) as (Hs & _).
  assert (run_lines rn excl (pre ++ [l]) initial_state
          = step rn excl (run_lines rn excl pre initial_state) l) as Hrun.
  { by rewrite run_lines_app. }
  split.
  - rewrite Hrun. by apply step_outside.
  - unfold process_ini_preview.
    replace (pre ++ l :: post) with ((pre ++ [l]) ++ post)
      by (by rewrite <- app_assoc).
    rewrite (run_lines_app rn excl (pre ++ [l]) post), Hrun.
    rewrite (step_outside rn excl _ l Hh Hsw Hs).
    match goal with |- context [run_lines rn excl post ?s] =>
      destruct (finish_new_lines rn (run_lines rn excl post s)) as [k1 ->];
      destruct (run_lines_new_lines rn excl post s) as [k2 ->]
    end.
    cbn [new_lines]. exists (k2 ++ k1). by rewrite <- !app_assoc.
Qed.

Lemma endif_outside_section_witness :
  ∃ tail, (process_ini_preview true ∅
             [ln "; header comment"; ln "endif"; ln "[TextureOverrideBody]"]).2
          = [ln "; header comment"] ++ ln "endif" :: tail.
Proof.
  apply (proj2 (endif_outside_section true ∅ [ln "; header comment"]
           (ln "endif") [ln "[TextureOverrideBody]"]
           ltac:(repeat constructor) ltac:(reflexivity))).
Defined.

(** C10: a swap-conditional line met before any section header opens a
    pending block, under no section name and not excluded; the lines that
    follow it outside a section go to the output at once, the pending
    block only at the end, so the opening line comes out after them. *)
Theorem swapvar_outside_section rn excl pre l d rest :
  Forall not_header pre →
  SWAPVAR_PATTERN l = Some d →
  Forall (fun x => not_header x ∧ SWAPVAR_PATTERN x = None) rest →
  let st := run_lines rn excl (pre ++ [l]) initial_state in
  block_lines st = [l]
  ∧ current_section st = None
  ∧ inside_excluded st = false
  ∧ process_ini_preview rn excl (pre ++ l :: rest)
    = ((process_ini_preview rn excl pre).1,
       (process_ini_preview rn excl pre).2 ++ rest ++ [l]).
Proof.
  intros Hpre Hl Hrest. cbn zeta.
  destruct (SWAPVAR_PATTERN_excl l d Hl) as (Hh & _).
  destruct (run_lines_keeps_outside rn excl pre initial_state Hpre
              outside_initial) as (Hs & Hc & He).
  assert (run_lines rn excl (pre ++ [l]) initial_state
          = step rn excl (run_lines rn excl pre initial_state) l) as Hrun.
  { by rewrite run_lines_app. }
  rewrite Hrun, (step_swapvar rn excl _ l d Hh Hl).
  cbn [block_lines current_section inside_excluded].
  split; [done|]. split; [done|]. split; [done|].
  unfold process_ini_preview.
  replace (pre ++ l :: rest) with ((pre ++ [l]) ++ rest)
    by (by rewrite <- app_assoc).
  rewrite (run_lines_app rn excl (pre ++ [l]) rest), Hrun.
  rewrite (step_swapvar rn excl _ l d Hh Hl).
  rewrite run_lines_outside by done.
  rewrite (finish_flush_pending rn (run_lines rn excl pre initial_state)).
  unfold finish, flush. cbn. rewrite Hc, He.
  rewrite (process_block_full_swapvar_only rn l d None Hl). cbn.
  by rewrite app_nil_r, <- app_assoc.
Qed.

Lemma swapvar_outside_section_witness :
  process_ini_preview true ∅ [ln "if $swapvar == 0"; ln "foo"; ln "endif"]
  = ([], [ln "foo"; ln "endif"; ln "if $swapvar == 0"]).
Proof.
  apply (proj2 (proj2 (proj2 (swapvar_outside_section true ∅ []
           (ln "if $swapvar == 0") "0" [ln "foo"; ln "endif"]
           ltac:(constructor) ltac:(reflexivity)
           ltac:(repeat constructor))))).
Defined.

(** ** Every line is routed once *)

Section routing.

Context (rn : bool) (excl : gset string).

Lemma emit_app a b :
  emit rn (a ++ b)
  = ((emit rn a).1 ++ (emit rn b).1, (emit rn a).2 ++ (emit rn b).2).
Proof.
  induction a as [|[line|block sec ex] a IH]; cbn.
  - by destruct (emit rn b).
  - rewrite IH. by destruct (emit rn a).
  - rewrite IH. destruct (process_block_full rn block sec ex), (emit rn a).
    cbn. by rewrite <- !app_assoc.
Qed.

Lemma emit_verbatim line : emit rn [Verbatim line] = ([line], []).
Proof. done. Qed.

Lemma emit_flushed block sec ex :
  emit rn [Flushed block sec ex] = process_block_full rn block sec ex.
Proof.
  cbn. destruct (process_block_full rn block sec ex).
  by rewrite !app_nil_r.
Qed.

End routing.


(** ** Further facts about process_block_full *)

Section block_more.

Context (rn : bool) (sec : option string).

Lemma RUN_LINE_PATTERN_correct_run block :
  RUN_LINE_PATTERN (correct_run block) = true.
Proof. unfold correct_run. by destruct (has_normal block). Qed.

Lemma filter_list_insert_at_run (correct : string) i (l : list string) :
  RUN_LINE_PATTERN correct = true →
  List.filter non_run (list_insert_at i correct l) = List.filter non_run l.
Proof.
  intros Hc. unfold list_insert_at. rewrite List.filter_app. cbn.
  unfold non_run at 2. rewrite Hc. cbn.
  by rewrite <- List.filter_app, take_drop.
Qed.

Lemma remove_loop_filter last correct i nb temp ch :
  List.filter non_run (remove_loop last correct sec i nb temp ch).1
  = List.filter non_run temp ++ List.filter non_run nb.
Proof.
  revert i temp ch. induction nb as [|line nb IH]; intros i temp ch; cbn.
  { by rewrite app_nil_r. }
  unfold non_run at 3. destruct (RUN_LINE_PATTERN line) eqn:Erun; cbn.
  - destruct (keep_run last correct i line); rewrite IH; [|done].
    rewrite List.filter_app. cbn. unfold non_run at 2. rewrite Erun. cbn.
    by rewrite app_nil_r.
  - rewrite IH, List.filter_app. cbn. unfold non_run at 2. rewrite Erun. cbn.
    by rewrite <- app_assoc.
Qed.

Lemma insert_fold_filter correct items st :
  RUN_LINE_PATTERN correct = true →
  List.filter non_run (p_block (fold_left (insert_step correct sec) items st))
  = List.filter non_run (p_block st).
Proof.
  intros Hc. revert st. induction items as [|it items IH]; intros st; [done|].
  cbn [fold_left]. rewrite IH. unfold insert_step.
  case_bool_decide; [done|]. cbn [p_block].
  by apply filter_list_insert_at_run.
Qed.

(** Lengths: every removal record stands for one line less, every
    insertion record for one line more. *)
Lemma remove_loop_length last correct i nb temp ch :
  length (remove_loop last correct sec i nb temp ch).1
  + length (remove_loop last correct sec i nb temp ch).2
  = length temp + length nb + length ch.
Proof.
  revert i temp ch. induction nb as [|line nb IH]; intros i temp ch; cbn.
  { lia. }
  destruct (RUN_LINE_PATTERN line); [destruct (keep_run last correct i line)|];
    rewrite IH, ?length_app; cbn; lia.
Qed.

Lemma length_list_insert_at {A} i (x : A) l :
  length (list_insert_at i x l) = S (length l).
Proof.
  unfold list_insert_at. pose proof (take_drop i l) as H.
  apply (f_equal length) in H. rewrite length_app in H.
  rewrite length_app. cbn. lia.
Qed.

Lemma insert_fold_length correct items st :
  length (p_block (fold_left (insert_step correct sec) items st))
  + length (p_changes st)
  = length (p_block st)
    + length (p_changes (fold_left (insert_step correct sec) items st)).
Proof.
  revert st. induction items as [|it items IH]; intros st; [done|].
  cbn [fold_left]. specialize (IH (insert_step correct sec st it)).
  unfold insert_step in IH |- *. case_bool_decide; [done|].
  cbn [p_block p_changes] in IH |- *.
  rewrite length_list_insert_at, length_app in IH. cbn [length] in IH. lia.
Qed.

End block_more.

Lemma flat_map_all_nil {A B} (f : A → list B) l :
  (∀ x, x ∈ l → f x = []) → flat_map f l = [].
Proof.
  induction l as [|x l IH]; [done|]. intros H. cbn.
  rewrite (H x) by left. cbn. apply IH. intros y Hy. apply H. by right.
Qed.

Section block_more_changes.

Context (rn : bool) (sec : option string).

Lemma remove_loop_unchanged last correct i nb temp ch :
  (remove_loop last correct sec i nb temp ch).2 = ch →
  (remove_loop last correct sec i nb temp ch).1 = temp ++ nb.
Proof.
  revert i temp. induction nb as [|line nb IH]; intros i temp; cbn.
  { by rewrite app_nil_r. }
  destruct (RUN_LINE_PATTERN line); [destruct (keep_run last correct i line)|].
  - intros H. rewrite IH by done. by rewrite <- app_assoc.
  - destruct (remove_loop_changes sec last correct (S i) nb temp
                (ch ++ [RemovedDirective sec (strip line)])) as (rs & -> & _).
    intros H. apply (f_equal length) in H. rewrite !length_app in H.
    cbn in H. lia.
  - intros H. rewrite IH by done. by rewrite <- app_assoc.
Qed.

Lemma insert_fold_unchanged correct items st :
  p_changes (fold_left (insert_step correct sec) items st) = p_changes st →
  p_block (fold_left (insert_step correct sec) items st) = p_block st.
Proof.
  revert st. induction items as [|it items IH]; intros st; [done|].
  cbn [fold_left]. unfold insert_step at 2 4.
  case_bool_decide as Hin; [apply IH|].
  match goal with |- context [fold_left _ items ?s] =>
    destruct (insert_fold_changes sec correct items s) as (adds & -> & _) end.
  cbn [p_changes]. intros Hlen. apply (f_equal length) in Hlen.
  rewrite !length_app in Hlen. cbn in Hlen. lia.
Qed.

Lemma rename_records_nil block :
  flat_map (rename_record rn sec) block = [] → map (rename_line rn) block = block.
Proof.
  induction block as [|l block IH]; [done|]. cbn.
  unfold rename_record at 1, rename_line at 1.
  destruct (rn && rename_target l); [done|]. cbn. intros H. by rewrite IH.
Qed.

(** When nothing is recorded, the block comes back as it is. *)
Lemma process_block_full_silent block ex :
  (process_block_full rn block sec ex).2 = [] →
  (process_block_full rn block sec ex).1 = block.
Proof.
  unfold process_block_full.
  destruct (bool_decide (block = []) || ex) eqn:E; [done|].
  set (p1 := rename_pass rn sec block).
  pose proof (remove_loop_changes sec (p_last p1) (correct_run block) 0
                (p_block p1) [] (p_changes p1)) as (rs & Hrs & _).
  pose proof (remove_loop_unchanged (p_last p1) (correct_run block) 0
                (p_block p1) [] (p_changes p1)) as Hun.
  destruct (remove_loop (p_last p1) (correct_run block) sec 0 (p_block p1) []
              (p_changes p1)) as [temp ch] eqn:Erm.
  cbn [fst snd] in *.
  pose proof (insert_fold_changes sec (correct_run block)
                (sorted_items (p_last p1)) (mkPass1 temp ch (p_last p1)))
    as (adds & Hadds & _).
  pose proof (insert_fold_unchanged (correct_run block)
                (sorted_items (p_last p1)) (mkPass1 temp ch (p_last p1)))
    as Hun'.
  intros Hnil. rewrite Hnil in Hadds. cbn [p_changes] in Hadds, Hun'.
  symmetry in Hadds. apply app_eq_nil in Hadds as [-> ->].
  symmetry in Hrs. apply app_eq_nil in Hrs as [Hr ->].
  rewrite Hun' by done. cbn [p_block]. rewrite Hun by done. cbn [app].
  unfold p1, rename_pass in Hr |- *.
  rewrite rename_fold_changes in Hr. rewrite rename_fold_block. cbn [p_block app].
  by apply rename_records_nil.
Qed.

(** Where the lines of a processed block come from. *)
Lemma process_block_full_lines block l :
  l ∈ (process_block_full rn block sec false).1 →
  l = correct_run block ∨ ∃ l0, l0 ∈ block ∧ l = rename_line rn l0.
Proof.
  unfold process_block_full. case_bool_decide as Hb; cbn [orb].
  { subst. by intros ?%elem_of_nil. }
  set (p1 := rename_pass rn sec block).
  pose proof (remove_loop_lines sec (p_last p1) (correct_run block) 0
                (p_block p1) [] (p_changes p1) l) as Hrl.
  destruct (remove_loop (p_last p1) (correct_run block) sec 0 (p_block p1) []
              (p_changes p1)) as [temp ch] eqn:Erm.
  cbn [fst] in *. intros [Hl|Hl]%insert_fold_lines; [|by left].
  cbn [p_block] in Hl. destruct (Hrl Hl) as [?%elem_of_nil|[Hin _]]; [done|].
  right. unfold p1, rename_pass in Hin. rewrite rename_fold_block in Hin.
  cbn in Hin. apply list_elem_of_fmap in Hin as (l0 & -> & Hl0). eauto.
Qed.

(** A renamed line is no rename target. *)
Lemma rename_target_renamed l :
  rn && rename_target (rename_line rn l) = false.
Proof.
  unfold rename_line. destruct rn; [|done]. cbn [andb].
  destruct (rename_target l) eqn:E; [|done].
  unfold rename_target in E |- *.
  apply andb_true_iff in E as [E _]. apply andb_true_iff in E as [E _].
  unfold ps_t0_assign in E.
  destruct (eat "ps-t0" (lstrip l)) as [t|] eqn:Et; [|done].
  destruct (replace1_slot_token l t Et) as (ws & _ & _ & ->).
  done.
Qed.

Lemma rename_target_correct_run block : rename_target (correct_run block) = false.
Proof. unfold correct_run. by destruct (has_normal block). Qed.

End block_more_changes.

Section table_more.

Lemma last_slot_from_None d i block :
  last_slot_from d i block = None →
  ∀ k l, block !! k = Some l → is_slot l = true → indent_of l ≠ d.
Proof.
  revert i. induction block as [|line block IH]; intros i; [done|].
  cbn [last_slot_from].
  destruct (last_slot_from d (S i) block) eqn:E; [done|].
  destruct (ps_t_digits (lstrip line) && (indent_of line =? d)) eqn:E1; [done|].
  intros _ [|k] l; cbn.
  - intros [= ->] Hs Hd. unfold is_slot in Hs. rewrite Hs in E1. cbn in E1.
    apply Nat.eqb_neq in E1. done.
  - by eapply IH.
Qed.

Lemma last_slot_from_Some d i block j :
  last_slot_from d i block = Some j →
  ∃ k l, j = i + k ∧ block !! k = Some l ∧ is_slot l = true ∧ indent_of l = d
         ∧ ∀ k' l', k < k' → block !! k' = Some l' → is_slot l' = true →
                    indent_of l' ≠ d.
Proof.
  revert i. induction block as [|line block IH]; intros i; [done|].
  cbn [last_slot_from].
  destruct (last_slot_from d (S i) block) as [j'|] eqn:E.
  - intros [= ->]. destruct (IH _ E) as (k & l & -> & Hk & Hs & Hd & Hmax).
    exists (S k), l. split; [lia|]. split; [done|]. split; [done|].
    split; [done|]. intros [|k'] l' Hlt; [lia|]. cbn. apply Hmax. lia.
  - destruct (ps_t_digits (lstrip line) && (indent_of line =? d)) eqn:E1;
      [|done].
    intros [= <-]. apply andb_true_iff in E1 as [Hs Hd%Nat.eqb_eq].
    exists 0, line. split; [lia|]. split; [done|]. split; [done|].
    split; [done|]. intros [|k'] l' Hlt; [lia|]. cbn.
    by eapply last_slot_from_None.
Qed.

Lemma last_slot_from_no_slot d i block :
  Forall (fun l => is_slot l = false) block → last_slot_from d i block = None.
Proof.
  intros Hb. revert i. induction Hb as [|l block Hl _ IH]; intros i; [done|].
  cbn. rewrite IH. unfold is_slot in Hl. by rewrite Hl.
Qed.

Lemma ps_t0_assign_slot s : ps_t0_assign s = true → ps_t_digits s = true.
Proof.
  unfold ps_t0_assign. destruct (eat "ps-t0" s) as [t|] eqn:E; [|done].
  intros _. apply eat_append in E as ->. done.
Qed.

Lemma rename_target_slot l : rename_target l = true → is_slot l = true.
Proof.
  unfold rename_target, is_slot. intros H.
  apply andb_true_iff in H as [H _]. apply andb_true_iff in H as [H _].
  by apply ps_t0_assign_slot.
Qed.

Lemma remove_loop_empty_table correct sec i nb temp ch :
  remove_loop ∅ correct sec i nb temp ch
  = (temp ++ List.filter non_run nb,
     ch ++ map (removal_record sec) (List.filter RUN_LINE_PATTERN nb)).
Proof.
  revert i temp ch. induction nb as [|line nb IH]; intros i temp ch; cbn.
  { by rewrite !app_nil_r. }
  unfold non_run at 1. unfold keep_run. rewrite lookup_empty.
  destruct (RUN_LINE_PATTERN line); cbn; rewrite IH, <- app_assoc; done.
Qed.

End table_more.

(** ** What the auto-exclude patterns accept *)

Section auto_exclude_facts.






End auto_exclude_facts.

(** ** Further facts about the line loop *)

Section tokenizer_more.

Context (rn : bool) (excl : gset string).

(** *** Prefixes of the output *)

Lemma shifted_flush p c st st' :
  shifted p c st st' →
  (flush rn st').1 = p ++ (flush rn st).1
  ∧ (flush rn st').2 = c ++ (flush rn st).2.
Proof.
  intros (Hn & Hc & Hb & Hs & _ & He). unfold flush.
  rewrite Hn, Hc, Hb, Hs, He.
  destruct (process_block_full rn (block_lines st) (current_section st)
              (inside_excluded st)). cbn. by rewrite !app_assoc.
Qed.

Lemma shifted_flush_pending p c st st' :
  shifted p c st st' → shifted p c (flush_pending rn st) (flush_pending rn st').
Proof.
  intros H. pose proof (shifted_flush _ _ _ _ H) as [Hf1 Hf2].
  destruct H as (Hn & Hc & Hb & Hs & Hi & He).
  unfold flush_pending. rewrite Hb. case_bool_decide; [done|].
  destruct (flush rn st), (flush rn st'). by cbn in *.
Qed.

Lemma shifted_step p c st st' line :
  shifted p c st st' →
  shifted p c (step rn excl st line) (step rn excl st' line).
Proof.
  intros H. pose proof (shifted_flush_pending _ _ _ _ H)
    as (Hn1 & Hc1 & Hb1 & Hs1 & Hi1 & He1).
  destruct H as (Hn & Hc & Hb & Hs & Hi & He).
  unfold step. destruct (is_header (strip line)).
  { unfold shifted. cbn. by rewrite Hn1, Hc1, Hb1, <- app_assoc. }
  destruct (SWAPVAR_PATTERN line).
  { unfold shifted. cbn. by rewrite Hn1, Hc1, Hb1, Hs1, Hi1, He1. }
  rewrite Hi. destruct (inside_section st && endif_match line).
  { match goal with |- shifted _ _
        (let '(_, _) := flush rn ?s in _) (let '(_, _) := flush rn ?s' in _) =>
      assert (shifted p c s s') as [Hf1 Hf2]%shifted_flush
        by (unfold shifted; cbn; by rewrite ?Hn, ?Hc, ?Hb, ?Hs, ?Hi, ?He);
      destruct (flush rn s), (flush rn s') end.
    unfold shifted. cbn in *. by rewrite ?Hf1, ?Hf2, ?Hs, ?Hi, ?He. }
  destruct (inside_section st); unfold shifted; cbn.
  - by rewrite ?Hn, ?Hc, ?Hb, ?Hs, ?Hi, ?He.
  - by rewrite ?Hn, ?Hc, ?Hb, ?Hs, ?Hi, ?He, <- ?app_assoc.
Qed.

Lemma shifted_run_lines p c lines st st' :
  shifted p c st st' →
  shifted p c (run_lines rn excl lines st) (run_lines rn excl lines st').
Proof.
  revert st st'. induction lines as [|l lines IH]; intros st st' H; [done|].
  rewrite !run_lines_cons. apply IH. by apply shifted_step.
Qed.

Lemma shifted_finish p c st st' :
  shifted p c st st' →
  finish rn st' = (c ++ (finish rn st).1, p ++ (finish rn st).2).
Proof.
  intros (Hn & Hc & _)%shifted_flush_pending.
  rewrite !finish_flush_pending. cbn. by rewrite Hn, Hc.
Qed.

(** *** Section headers in the output *)

Lemma not_header_correct_run block : not_header (correct_run block).
Proof. unfold correct_run. by destruct (has_normal block). Qed.

Lemma not_header_rename_line l : not_header l → not_header (rename_line rn l).
Proof.
  intros Hl. unfold rename_line.
  destruct (rn && rename_target l) eqn:E; [|done].
  apply andb_true_iff in E as [_ E]. unfold rename_target in E.
  apply andb_true_iff in E as [E _]. apply andb_true_iff in E as [E _].
  unfold ps_t0_assign in E.
  destruct (eat "ps-t0" (lstrip l)) as [t|] eqn:Et; [|done].
  destruct (replace1_slot_token l t Et) as (ws & _ & _ & Hs).
  eapply (not_header_by_hd _ (lower "p"%char)); [by rewrite Hs | done].
Qed.

Lemma process_block_full_not_header block sec ex :
  Forall not_header block →
  Forall not_header (process_block_full rn block sec ex).1.
Proof.
  intros Hb. destruct ex.
  { by rewrite process_block_full_excluded. }
  apply Forall_forall. intros l [->|(l0 & Hl0 & ->)]%process_block_full_lines.
  - apply not_header_correct_run.
  - apply not_header_rename_line. rewrite Forall_forall in Hb. by apply Hb.
Qed.

Lemma filter_not_header l :
  Forall not_header l → List.filter is_header_line l = [].
Proof. apply filter_all_false. Qed.

(** The headers of the output so far are the headers read so far, and the
    pending block holds none. *)
Lemma headers_flush st :
  Forall not_header (block_lines st) →
  List.filter is_header_line (flush rn st).1
  = List.filter is_header_line (new_lines st).
Proof.
  intros Hb. unfold flush.
  pose proof (process_block_full_not_header (block_lines st)
                (current_section st) (inside_excluded st) Hb) as Hp.
  destruct (process_block_full rn (block_lines st) (current_section st)
              (inside_excluded st)) as [p c]. cbn in *.
  by rewrite List.filter_app, (filter_not_header p), app_nil_r.
Qed.

Lemma headers_flush_pending st :
  Forall not_header (block_lines st) →
  List.filter is_header_line (new_lines (flush_pending rn st))
  = List.filter is_header_line (new_lines st).
Proof.
  intros Hb. unfold flush_pending. case_bool_decide; [done|].
  pose proof (headers_flush st Hb) as Hf. by destruct (flush rn st).
Qed.

Lemma headers_step st line :
  Forall not_header (block_lines st) →
  Forall not_header (block_lines (step rn excl st line))
  ∧ List.filter is_header_line (new_lines (step rn excl st line))
    = List.filter is_header_line (new_lines st)
      ++ List.filter is_header_line [line].
Proof.
  intros Hb. pose proof (headers_flush_pending st Hb) as Hfp.
  pose proof (flush_pending_block rn st) as Hb1.
  assert (List.filter is_header_line [line]
          = if is_header (strip line) then [line] else []) as ->.
  { cbn. unfold is_header_line. by destruct (is_header (strip line)). }
  unfold step.
  destruct (is_header (strip line)) eqn:Eh.
  { cbn. rewrite Hb1. split; [done|].
    rewrite List.filter_app, Hfp. cbn. unfold is_header_line at 2.
    by rewrite Eh. }
  destruct (SWAPVAR_PATTERN line).
  { cbn. rewrite Hb1, Hfp, app_nil_r. split; [|done]. by repeat constructor. }
  assert (Forall not_header (block_lines st ++ [line])) as Hbl.
  { apply Forall_app. split; [done|]. by repeat constructor. }
  destruct (inside_section st && endif_match line).
  { match goal with |- context [flush rn ?s] =>
      pose proof (headers_flush s Hbl) as Hf; destruct (flush rn s) end.
    cbn in *. by rewrite Hf, app_nil_r. }
  destruct (inside_section st); cbn.
  - by rewrite app_nil_r.
  - split; [done|]. rewrite List.filter_app. cbn. unfold is_header_line at 2.
    by rewrite Eh.
Qed.

Lemma headers_run_lines lines st :
  Forall not_header (block_lines st) →
  Forall not_header (block_lines (run_lines rn excl lines st))
  ∧ List.filter is_header_line (new_lines (run_lines rn excl lines st))
    = List.filter is_header_line (new_lines st)
      ++ List.filter is_header_line lines.
Proof.
  revert st. induction lines as [|l lines IH]; intros st Hb.
  { cbn. by rewrite app_nil_r. }
  rewrite run_lines_cons. destruct (headers_step st l Hb) as [Hb' Hs].
  destruct (IH _ Hb') as [Hb'' Hr]. split; [done|].
  rewrite Hr, Hs, <- app_assoc.
  change (l :: lines) with ([l] ++ lines). by rewrite List.filter_app.
Qed.

End tokenizer_more.

(** ** Blocks inside sections keep the order of the lines *)

Section ordered_facts.

Context (rn : bool) (excl : gset string).

Lemma section_of_mono a b sec : section_of a sec → section_of (a ++ b) sec.
Proof.
  intros (h & Hh & ?). exists h. split; [|done]. apply elem_of_app. by left.
Qed.

Lemma item_ok_mono a b it : item_ok excl a it → item_ok excl (a ++ b) it.
Proof.
  destruct it as [|block sec ex]; [done|]. cbn.
  intros (? & ?%(section_of_mono a b) & ?). done.
Qed.

Lemma items_ok_mono a b items :
  Forall (item_ok excl a) items → Forall (item_ok excl (a ++ b)) items.
Proof. intros H. eapply Forall_impl; [exact H|]. apply item_ok_mono. Qed.

Lemma tail_snoc_swapvar (b : list string) line :
  Forall (fun l => SWAPVAR_PATTERN l = None) (tail b) →
  SWAPVAR_PATTERN line = None →
  Forall (fun l => SWAPVAR_PATTERN l = None) (tail (b ++ [line])).
Proof.
  destruct b as [|x b]; cbn; [constructor|].
  intros Hb Hl. apply Forall_app. split; [done|]. by repeat constructor.
Qed.

Lemma ordered_flush_pending consumed st items :
  ordered rn excl consumed st items →
  ∃ items', ordered rn excl consumed (flush_pending rn st) items'.
Proof.
  intros (Hn & Hc & Hl & Hok & Hnh & Hsw & Hin). unfold flush_pending.
  case_bool_decide as Hb; [by exists items|].
  destruct (inside_section st) eqn:Ei; [|done]. destruct Hin as [Hsec Hex].
  exists (items ++ [Flushed (block_lines st) (current_section st)
                      (inside_excluded st)]).
  unfold flush, ordered. rewrite emit_app, emit_flushed.
  destruct (process_block_full rn (block_lines st) (current_section st)
              (inside_excluded st)) as [p c].
  cbn. rewrite ?Hn, ?Hc, ?Ei, flat_map_app. cbn. rewrite !app_nil_r.
  repeat split; try done.
  apply Forall_app. split; [done|]. by repeat constructor.
Qed.

Lemma step_keeps_inside st line :
  inside_section st = true → inside_section (step rn excl st line) = true.
Proof.
  intros Hi. unfold step. destruct (flush_pending_flags rn st) as (_ & F & _).
  destruct (is_header (strip line)); [done|].
  destruct (SWAPVAR_PATTERN line); [cbn; congruence|].
  rewrite Hi. cbn [andb]. destruct (endif_match line); [|done].
  match goal with |- context [flush rn ?s] => by destruct (flush rn s) end.
Qed.

Lemma ordered_step consumed st items line :
  ordered rn excl consumed st items →
  inside_section st = true ∨ is_header_line line = true
  ∨ SWAPVAR_PATTERN line = None →
  ∃ items', ordered rn excl (consumed ++ [line]) (step rn excl st line) items'.
Proof.
  intros H Hline.
  destruct (ordered_flush_pending _ _ _ H)
    as (items1 & Hn1 & Hc1 & Hl1 & Hok1 & _ & _ & Hin1).
  pose proof (flush_pending_block rn st) as Hb1.
  destruct (flush_pending_flags rn st) as (Fs & Fi & Fe).
  rewrite Hb1, app_nil_r in Hl1. rewrite Fi, Fs, Fe in Hin1.
  destruct H as (Hn & Hc & Hl & Hok & Hnh & Hsw & Hin).
  unfold step. unfold is_header_line in Hline.
  destruct (is_header (strip line)) eqn:Eh.
  { exists (items1 ++ [Verbatim line]). unfold ordered.
    rewrite emit_app, emit_verbatim. cbn.
    rewrite Hn1, Hc1, Hb1, flat_map_app, Hl1. cbn. rewrite !app_nil_r.
    repeat split; try done.
    - apply Forall_app. split; [by apply items_ok_mono|]. by repeat constructor.
    - exists line. split; [|done]. apply elem_of_app. right. by left. }
  destruct (SWAPVAR_PATTERN line) as [d|] eqn:Es.
  { destruct Hline as [Hi|[?|?]]; [|done..].
    rewrite Hi in Hin1. destruct Hin1 as [Hsec Hex].
    exists items1. unfold ordered. cbn.
    rewrite Hn1, Hc1, Hb1, Hl1, Fi, Fs, Fe, Hi. cbn.
    repeat split; try done.
    - by apply items_ok_mono.
    - by repeat constructor.
    - by apply section_of_mono. }
  assert (Forall not_header (block_lines st ++ [line])) as Hnh'.
  { apply Forall_app. split; [done|]. by repeat constructor. }
  pose proof (tail_snoc_swapvar _ _ Hsw Es) as Hsw'.
  destruct (inside_section st) eqn:Ei; cbn [andb].
  - destruct Hin as [Hsec Hex]. destruct (endif_match line).
    + exists (items ++ [Flushed (block_lines st ++ [line]) (current_section st)
                          (inside_excluded st)]).
      unfold flush, ordered. rewrite emit_app, emit_flushed. cbn.
      destruct (process_block_full rn (block_lines st ++ [line])
                  (current_section st) (inside_excluded st)) as [p c].
      cbn. rewrite ?Hn, ?Hc, ?Ei, flat_map_app. cbn.
      rewrite !app_nil_r, app_assoc, Hl.
      repeat split; try done.
      * apply Forall_app. split; [by apply items_ok_mono|].
        constructor; [|done]. cbn. repeat split; try done.
        -- by destruct (block_lines st).
        -- by apply section_of_mono.
      * by apply section_of_mono.
    + exists items. unfold ordered. cbn. rewrite ?Ei, app_assoc, Hl.
      repeat split; try done.
      * by apply items_ok_mono.
      * by apply section_of_mono.
  - exists (items ++ [Verbatim line]). unfold ordered.
    rewrite emit_app, emit_verbatim. cbn.
    rewrite Hin, app_nil_r in Hl.
    rewrite ?Hn, ?Hc, ?Ei, ?Hin, flat_map_app, Hl. cbn.
    rewrite !app_nil_r. repeat split; try done.
    apply Forall_app. split; [by apply items_ok_mono|]. by repeat constructor.
Qed.

Lemma ordered_run_lines lines consumed st items :
  ordered rn excl consumed st items →
  inside_section st = true ∨ no_early_swapvar lines = true →
  ∃ items',
    ordered rn excl (consumed ++ lines) (run_lines rn excl lines st) items'.
Proof.
  revert consumed st items.
  induction lines as [|l lines IH]; intros consumed st items H Hlines.
  { exists items. by rewrite app_nil_r. }
  rewrite run_lines_cons.
  assert (inside_section st = true ∨ is_header_line l = true
          ∨ SWAPVAR_PATTERN l = None) as Hl.
  { destruct Hlines as [?|Hl]; [auto|]. cbn in Hl.
    destruct (is_header_line l); [auto|].
    destruct (SWAPVAR_PATTERN l); [done|auto]. }
  assert (inside_section (step rn excl st l) = true
          ∨ no_early_swapvar lines = true) as Hrest.
  { destruct Hlines as [Hi|Hs]; [left; by apply step_keeps_inside|].
    cbn in Hs. unfold is_header_line in Hs.
    destruct (is_header (strip l)) eqn:Eh.
    - left. by rewrite step_header.
    - destruct (SWAPVAR_PATTERN l); [done|auto]. }
  destruct (ordered_step consumed st items l H Hl) as [items1 H1].
  destruct (IH _ _ _ H1 Hrest) as [items2 H2].
  exists items2. by rewrite <- app_assoc in H2.
Qed.

Lemma ordered_final lines :
  no_early_swapvar lines = true →
  ∃ items,
    ordered rn excl lines
      (flush_pending rn (run_lines rn excl lines initial_state)) items.
Proof.
  intros Hlines.
  assert (ordered rn excl [] initial_state []) as H0.
  { unfold ordered. cbn. by repeat split. }
  destruct (ordered_run_lines lines _ _ _ H0 (or_intror Hlines))
    as [items1 H1].
  by apply (ordered_flush_pending _ _ items1).
Qed.

Lemma emit_silent items :
  (emit rn items).2 = [] → (emit rn items).1 = flat_map item_lines items.
Proof.
  induction items as [|[line|block sec ex] items IH]; cbn; [done| |].
  - destruct (emit rn items) as [o c]. cbn in *. intros ->. by rewrite IH.
  - pose proof (process_block_full_silent rn sec block ex) as Hs.
    destruct (process_block_full rn block sec ex) as [p pc].
    destruct (emit rn items) as [o c]. cbn in *.
    intros [-> ->]%app_eq_nil. by rewrite Hs, IH.
Qed.

Lemma emit_all_excluded items lines :
  Forall (item_ok excl lines) items →
  (∀ h, h ∈ lines → is_header_line h = true →
        excluded_section excl (Some (strip h)) = true) →
  emit rn items = (flat_map item_lines items, []).
Proof.
  intros Hok Hex. induction Hok as [|[line|block sec ex] items Hit _ IH]; cbn;
    [done|by rewrite IH|].
  destruct Hit as (_ & (h & Hh & Hhdr & ->) & -> & _).
  rewrite (Hex h Hh Hhdr), process_block_full_excluded, IH. done.
Qed.

End ordered_facts.

(** ** The exclusion set of main *)

Section main_facts.

Lemma exclude_loop_spec sections inputs acc ex rest :
  exclude_loop sections inputs acc = Some (ex, rest) →
  acc ⊆ ex
  ∧ (∀ s, s ∈ ex → s ∈ acc ∨ s ∈ sections)
  ∧ (∀ s, s ∈ sections → AUTO_EXCLUDE_PATTERNS s = true → s ∈ ex)
  ∧ ∃ used, inputs = used ++ rest.
Proof.
  revert inputs acc. induction sections as [|x sections IH];
    intros inputs acc; cbn [exclude_loop].
  { intros [= -> ->]. repeat split; [done|auto| |by exists []].
    intros s Hs. by apply elem_of_nil in Hs. }
  destruct (AUTO_EXCLUDE_PATTERNS x) eqn:Ea.
  - intros (H1 & H2 & H3 & H4)%IH. repeat split; [| | |done].
    + intros s Hs. apply H1, elem_of_union. by right.
    + intros s [Hs|Hs]%H2; [|right; by right].
      apply elem_of_union in Hs as [Hs|Hs]; [|auto].
      apply elem_of_singleton in Hs as ->. right. by left.
    + intros s [->|Hs]%elem_of_cons Hauto; [|by apply H3].
      apply H1, elem_of_union. left. by apply elem_of_singleton.
  - destruct (ask_yn inputs) as [[yes inputs']|] eqn:Eq; [|done].
    assert (∃ used, inputs = used ++ inputs') as [used0 Hused0].
    { clear -Eq. revert Eq. induction inputs as [|i inputs IHi]; [done|].
      cbn. repeat case_bool_decide.
      - intros [= _ <-]. by exists [i].
      - intros [= _ <-]. by exists [i].
      - intros [used ->]%IHi. by exists (i :: used). }
    intros (H1 & H2 & H3 & [used H4])%IH. repeat split.
    + intros s Hs. apply H1. destruct yes; [|done].
      apply elem_of_union. by right.
    + intros s [Hs|Hs]%H2; [|right; by right]. destruct yes; [|auto].
      apply elem_of_union in Hs as [Hs|Hs]; [|auto].
      apply elem_of_singleton in Hs as ->. right. by left.
    + intros s [->|Hs]%elem_of_cons Hauto; [congruence | by apply H3].
    + exists (used0 ++ used). by rewrite Hused0, H4, app_assoc.
Qed.

Lemma elem_of_sorted_elements (found : gset string) s :
  s ∈ merge_sort String.le (elements found) ↔ s ∈ found.
Proof. by rewrite merge_sort_Permutation, elem_of_elements. Qed.

Lemma elem_of_scan_sections lines s :
  s ∈ scan_sections lines
  ↔ ∃ h, h ∈ lines ∧ is_header_line h = true ∧ s = strip h.
Proof.
  unfold scan_sections. rewrite elem_of_list_to_set, list_elem_of_In.
  rewrite List.filter_In, <- list_elem_of_In, list_elem_of_fmap. split.
  - intros [(h & -> & Hh) Hs]. by exists h.
  - intros (h & Hh & Hs & ->). split; [by exists h | done].
Qed.

End main_facts.

Section main_more.

Lemma ask_yn_invalid i inputs :
  valid_answer i = false → ask_yn (i :: inputs) = ask_yn inputs.
Proof.
  unfold valid_answer. intros [H1 H2]%orb_false_iff. cbn [ask_yn].
  by rewrite H1, H2.
Qed.

Lemma exclude_loop_all_auto sections inputs acc :
  Forall (fun s => AUTO_EXCLUDE_PATTERNS s = true) sections →
  exclude_loop sections inputs acc
  = Some (list_to_set sections ∪ acc, inputs).
Proof.
  intros Hs. revert acc. induction Hs as [|s sections Hs _ IH]; intros acc;
    cbn [exclude_loop].
  - f_equal. f_equal. cbn. by rewrite (left_id_L ∅ (∪)).
  - rewrite Hs, IH. f_equal. f_equal. cbn [list_to_set].
    rewrite (comm_L (∪) {[s]} (list_to_set sections)).
    by rewrite <- (assoc_L (∪)).
Qed.

End main_more.

(** ** What renaming leaves alone *)

Section rename_shape.

Lemma append_cons c s t : String c s +:+ t = String c (s +:+ t).
Proof. done. Qed.

Lemma append_nil_l s : "" +:+ s = s.
Proof. done. Qed.

Lemma length_append s t :
  String.length (s +:+ t) = String.length s + String.length t.
Proof.
  induction s as [|c s IH]; [done|]. rewrite append_cons. cbn. by rewrite IH.
Qed.

Lemma append_assoc s t u : (s +:+ t) +:+ u = s +:+ t +:+ u.
Proof.
  induction s as [|c s IH]; [done|]. rewrite !append_cons. by rewrite IH.
Qed.

(** Changing one character that does not occur in [p] does not change
    whether [p] is found. *)
Lemma eat_swap_char p a c c' b :
  Forall (fun x => x ≠ c ∧ x ≠ c') (list_ascii_of_string p) →
  is_Some (eat p (a +:+ String c b)) ↔ is_Some (eat p (a +:+ String c' b)).
Proof.
  unfold eat. revert a. induction p as [|x p IH]; intros a Hp; cbn.
  { split; eauto. }
  cbn in Hp. apply Forall_cons in Hp as [[Hx Hx'] Hp].
  destruct a as [|y a].
  - rewrite !append_nil_l. cbn. rewrite (proj2 (Ascii.eqb_neq x c) Hx),
      (proj2 (Ascii.eqb_neq x c') Hx'). done.
  - rewrite !append_cons. cbn. destruct (Ascii.eqb x y); [by apply IH|done].
Qed.

Lemma contains_swap_char p a c c' b :
  Forall (fun x => x ≠ c ∧ x ≠ c') (list_ascii_of_string p) →
  contains p (a +:+ String c b) = contains p (a +:+ String c' b).
Proof.
  intros Hp. induction a as [|y a IH].
  - rewrite !append_nil_l. cbn [contains]. unfold startswith. f_equal.
    apply bool_decide_ext. apply (eat_swap_char p "" c c' b Hp).
  - rewrite !append_cons. cbn [contains]. rewrite IH. f_equal.
    unfold startswith. apply bool_decide_ext.
    apply (eat_swap_char p (String y a) c c' b Hp).
Qed.

Context (rn : bool).

(** A renamed line differs from the line in the digit of the slot token
    only. *)
Lemma rename_line_split l :
  rn && rename_target l = true →
  ∃ ws t, l = (ws +:+ "ps-t") +:+ String "0" t
          ∧ rename_line rn l = (ws +:+ "ps-t") +:+ String "1" t
          ∧ lstrip l = "ps-t0" +:+ t
          ∧ lstrip (rename_line rn l) = "ps-t1" +:+ t.
Proof.
  intros E. unfold rename_line. rewrite E.
  apply andb_true_iff in E as [_ E]. unfold rename_target in E.
  apply andb_true_iff in E as [E _]. apply andb_true_iff in E as [E _].
  unfold ps_t0_assign in E.
  destruct (eat "ps-t0" (lstrip l)) as [t|] eqn:Et; [|done].
  destruct (replace1_slot_token l t Et) as (ws & H1 & H2 & H3).
  exists ws, t. rewrite H3, H2, !append_assoc.
  split; [done|]. split; [done|]. split; [|done]. by apply eat_append.
Qed.

Lemma rename_line_shape l :
  String.length (rename_line rn l) = String.length l
  ∧ indent_of (rename_line rn l) = indent_of l
  ∧ is_slot (rename_line rn l) = is_slot l
  ∧ contains "NormalMap" (rename_line rn l) = contains "NormalMap" l.
Proof.
  destruct (rn && rename_target l) eqn:E.
  - destruct (rename_line_split l E) as (ws & t & Hl & Hr & Hsl & Hsr).
    assert (String.length (rename_line rn l) = String.length l) as Hlen.
    { rewrite Hr. rewrite Hl at 1. rewrite !length_append. done. }
    split; [done|]. split; [|split].
    + unfold indent_of. rewrite Hlen, Hsl, Hsr, !length_append. done.
    + unfold is_slot. by rewrite Hsl, Hsr.
    + rewrite Hr. rewrite Hl at 1. symmetry. apply contains_swap_char.
      cbn. repeat constructor; done.
  - unfold rename_line. by rewrite E.
Qed.

Lemma has_normal_rename block :
  has_normal (map (rename_line rn) block) = has_normal block.
Proof.
  unfold has_normal. induction block as [|l block IH]; [done|]. cbn.
  rewrite IH. f_equal. apply rename_line_shape.
Qed.

Lemma last_slot_from_rename d i block :
  last_slot_from d i (map (rename_line rn) block) = last_slot_from d i block.
Proof.
  revert i. induction block as [|l block IH]; intros i; [done|].
  cbn. rewrite IH.
  destruct (rename_line_shape l) as (_ & -> & Hs & _).
  unfold is_slot in Hs. by rewrite Hs.
Qed.

End rename_shape.

(** ** Processing a block twice, when it had no run line *)

Section fresh_twice.

Context (rn : bool) (sec : option string).

Lemma remove_loop_app_no_run last correct i a b temp ch :
  Forall (fun l => RUN_LINE_PATTERN l = false) a →
  remove_loop last correct sec i (a ++ b) temp ch
  = remove_loop last correct sec (i + length a) b (temp ++ a) ch.
Proof.
  intros Ha. revert i temp. induction Ha as [|l a Hl _ IH]; intros i temp.
  { cbn. by rewrite Nat.add_0_r, app_nil_r. }
  cbn. rewrite Hl, IH, <- app_assoc. cbn. f_equal. lia.
Qed.

Lemma last_slot_from_intro d block j :
  (∃ l, block !! j = Some l ∧ is_slot l = true ∧ indent_of l = d) →
  (∀ k l', j < k → block !! k = Some l' → is_slot l' = true →
           indent_of l' ≠ d) →
  last_slot_from d 0 block = Some j.
Proof.
  intros (l & Hj & Hs & Hd) Hmax.
  destruct (last_slot_from d 0 block) as [j'|] eqn:E.
  - destruct (last_slot_from_Some _ _ _ _ E)
      as (k & l' & -> & Hk & Hs' & Hd' & Hmax').
    f_equal. cbn. destruct (Nat.lt_trichotomy k j) as [Hlt|[->|Hlt]].
    + by destruct (Hmax' _ _ Hlt Hj Hs).
    + done.
    + by destruct (Hmax _ _ Hlt Hk Hs').
  - by destruct (last_slot_from_None _ _ _ E _ _ Hj Hs).
Qed.

Lemma lookup_list_insert_at {A} i (x : A) l k :
  i ≤ length l →
  list_insert_at i x l !! k
  = if decide (k < i) then l !! k
    else if decide (k = i) then Some x else l !! (k - 1).
Proof.
  intros Hi. unfold list_insert_at.
  assert (length (take i l) = i) as Hlen by (rewrite length_take; lia).
  destruct (decide (k < i)) as [Hlt|Hge].
  - rewrite lookup_app_l by lia. by rewrite lookup_take_lt.
  - rewrite lookup_app_r by lia. rewrite Hlen.
    destruct (decide (k = i)) as [->|Hne].
    + by rewrite Nat.sub_diag.
    + rewrite lookup_cons_ne_0 by lia. rewrite lookup_drop. f_equal. lia.
Qed.

Lemma elem_of_list_insert_at {A} i (x y : A) l :
  y ∈ list_insert_at i x l ↔ y = x ∨ y ∈ l.
Proof.
  unfold list_insert_at. rewrite elem_of_app, elem_of_cons.
  assert (y ∈ l ↔ y ∈ take i l ∨ y ∈ drop i l) as ->.
  { by rewrite <- elem_of_app, take_drop. }
  tauto.
Qed.

Lemma not_renamed_again l :
  rename_line rn (rename_line rn l) = rename_line rn l
  ∧ rename_record rn sec (rename_line rn l) = [].
Proof.
  unfold rename_line at 1, rename_record.
  by rewrite rename_target_renamed.
Qed.

(** The lines of a block that went through the first loop, with the
    correct run line possibly among them, go through it unchanged. *)
Lemma rename_pass_settled block (lines : list string) :
  (∀ l, l ∈ lines → l = correct_run block ∨ ∃ l0, l = rename_line rn l0) →
  map (rename_line rn) lines = lines
  ∧ flat_map (rename_record rn sec) lines = [].
Proof.
  intros H. induction lines as [|l lines IH]; [done|].
  destruct IH as [IH1 IH2]; [intros l' Hl'; apply H; by right|].
  cbn. rewrite IH1, IH2.
  destruct (H l) as [->|[l0 ->]]; [by left| |].
  - unfold rename_line, rename_record.
    by rewrite rename_target_correct_run, andb_false_r.
  - by destruct (not_renamed_again l0) as [-> ->].
Qed.

End fresh_twice.

Section fresh_twice_main.

Context (rn : bool).

Lemma is_slot_correct_run block : is_slot (correct_run block) = false.
Proof. unfold correct_run. by destruct (has_normal block). Qed.

Lemma no_marker_correct_run block :
  contains "NormalMap" (correct_run block) = false.
Proof. unfold correct_run. by destruct (has_normal block). Qed.

Lemma has_normal_list_insert_at i c lines :
  contains "NormalMap" c = false →
  has_normal (list_insert_at i c lines) = has_normal lines.
Proof.
  intros Hc. unfold has_normal, list_insert_at.
  rewrite existsb_app. cbn. rewrite Hc. cbn.
  by rewrite <- existsb_app, take_drop.
Qed.

Lemma Pass1_eta p : p = mkPass1 (p_block p) (p_changes p) (p_last p).
Proof. by destruct p. Qed.

(** The block with its run line in place, after a slot assignment without
    indentation at position [j], the last one: nothing is left to do. *)
Lemma process_block_full_settled sec block nb j :
  nb = map (rename_line rn) block →
  Forall (fun l => RUN_LINE_PATTERN l = false) nb →
  Forall (fun l => is_slot l = true → indent_of l = 0) nb →
  last_slot_from 0 0 nb = Some j →
  process_block_full rn (list_insert_at (j + 1) (correct_run block) nb) sec
    false
  = (list_insert_at (j + 1) (correct_run block) nb, []).
Proof.
  intros Hnb Hrun Hdepth Hj.
  set (c := correct_run block). set (B := list_insert_at (j + 1) c nb).
  destruct (last_slot_from_Some 0 0 nb j Hj)
    as (k & l & Hk & Hl & Hs & Hd & Hmax).
  cbn in Hk. subst k. pose proof (lookup_lt_Some _ _ _ Hl) as Hlt.
  assert (correct_run B = c) as Hc.
  { unfold correct_run at 1. unfold B.
    rewrite has_normal_list_insert_at by apply no_marker_correct_run.
    subst nb. by rewrite has_normal_rename. }
  assert (∀ x, x ∈ B → x = correct_run block ∨ ∃ l0, x = rename_line rn l0)
    as Hfrom.
  { intros x [->|Hx]%elem_of_list_insert_at; [by left|]. right. subst nb.
    apply list_elem_of_fmap in Hx as (l0 & -> & _). eauto. }
  destruct (rename_pass_settled rn sec block B Hfrom) as [Hmap Hrec].
  assert (∀ k, B !! k = if decide (k < j + 1) then nb !! k
                        else if decide (k = j + 1) then Some c
                        else nb !! (k - 1)) as HB.
  { intros k. unfold B. apply lookup_list_insert_at. lia. }
  assert (rename_pass rn sec B = mkPass1 B [] {[0 := j]}) as Hp1.
  { rewrite (Pass1_eta (rename_pass rn sec B)). unfold rename_pass at 1 2.
    rewrite rename_fold_block, rename_fold_changes, Hmap, Hrec. cbn [app].
    f_equal. apply map_eq. intros d. rewrite rename_pass_last.
    destruct (decide (d = 0)) as [->|Hne].
    - rewrite lookup_singleton_eq. apply last_slot_from_intro.
      + exists l. rewrite HB. by destruct (decide (j < j + 1)); [|lia].
      + intros k l' Hjk. rewrite HB.
        destruct (decide (k < j + 1)); [lia|].
        destruct (decide (k = j + 1)).
        * intros [= <-]. unfold c. by rewrite is_slot_correct_run.
        * apply Hmax. lia.
    - rewrite lookup_singleton_ne by done.
      apply (last_slot_from_other 0); [|done].
      apply Forall_forall. intros x [->|Hx]%elem_of_list_insert_at.
      + intros Hsl. change (is_slot (correct_run block) = true) in Hsl.
        by rewrite is_slot_correct_run in Hsl.
      + rewrite Forall_forall in Hdepth. by apply Hdepth. }
  unfold process_block_full. case_bool_decide as Hnil; cbn [orb].
  { apply (f_equal length) in Hnil. unfold B in Hnil.
    by rewrite length_list_insert_at in Hnil. }
  rewrite Hc, Hp1. cbn [p_block p_changes p_last].
  assert (remove_loop {[0 := j]} c sec 0 B [] [] = (B, [])) as ->.
  { unfold B at 1, list_insert_at.
    rewrite remove_loop_app_no_run by by apply Forall_take.
    rewrite length_take, Nat.min_l by lia. cbn [remove_loop app].
    replace (RUN_LINE_PATTERN c) with true
      by (symmetry; apply RUN_LINE_PATTERN_correct_run).
    replace (keep_run {[0 := j]} c (0 + (j + 1)) c) with true.
    - rewrite remove_loop_no_run by by apply Forall_drop.
      by rewrite <- app_assoc.
    - symmetry. unfold keep_run, c.
      rewrite indent_of_correct_run, lookup_singleton_eq.
      apply andb_true_iff. split; by apply bool_decide_eq_true. }
  rewrite sorted_items_singleton. cbn [fold_left]. unfold insert_step.
  cbn [p_block snd]. rewrite bool_decide_eq_true_2; [done|].
  rewrite HB. destruct (decide (j + 1 < j + 1)); [lia|].
  by destruct (decide (j + 1 = j + 1)).
Qed.

End fresh_twice_main.

Section insertion_bound.

Context (rn : bool) (sec : option string).

Lemma rename_step_last_eq st line :
  p_last (rename_step rn sec st line)
  = if ps_t_digits (lstrip line)
    then <[indent_of line := length (p_block st)]> (p_last st)
    else p_last st.
Proof.
  unfold rename_step, indent_of.
  destruct (rename_cond rn (lstrip line)); cbn [p_last];
    rewrite length_app; cbn [length];
    by replace (length (p_block st) + 1 - 1) with (length (p_block st)) by lia.
Qed.

Lemma rename_fold_size block st :
  size (p_last (fold_left (rename_step rn sec) block st))
  ≤ size (p_last st) + length (List.filter is_slot block).
Proof.
  revert st. induction block as [|l block IH]; intros st; cbn [fold_left].
  { cbn. lia. }
  etrans; [apply IH|]. rewrite rename_step_last_eq. cbn [List.filter].
  unfold is_slot at 2. destruct (ps_t_digits (lstrip l)); cbn [length]; [|lia].
  rewrite map_size_insert. destruct (p_last st !! indent_of l); cbn; lia.
Qed.

Lemma insert_fold_added correct items st :
  length (p_changes (fold_left (insert_step correct sec) items st))
  ≤ length (p_changes st) + length items.
Proof.
  revert st. induction items as [|it items IH]; intros st; cbn [fold_left].
  { cbn. lia. }
  etrans; [apply IH|]. unfold insert_step. case_bool_decide; cbn; [lia|].
  rewrite length_app. cbn. lia.
Qed.

Lemma length_sorted_items (last : gmap nat nat) :
  length (sorted_items last) = size last.
Proof.
  unfold sorted_items.
  by rewrite merge_sort_Permutation, length_map_to_list.
Qed.

End insertion_bound.

Section directive_after_slot.

Lemma last_slot_from_insert_after d nb j c :
  last_slot_from d 0 nb = Some j → is_slot c = false →
  last_slot_from d 0 (list_insert_at (j + 1) c nb) = Some j.
Proof.
  intros Hj Hc.
  destruct (last_slot_from_Some d 0 nb j Hj)
    as (k & l & Hk & Hl & Hs & Hd & Hmax).
  cbn in Hk. subst k. pose proof (lookup_lt_Some _ _ _ Hl) as Hlt.
  apply last_slot_from_intro.
  - exists l. rewrite lookup_list_insert_at by lia.
    by destruct (decide (j < j + 1)); [|lia].
  - intros k l' Hjk. rewrite lookup_list_insert_at by lia.
    destruct (decide (k < j + 1)); [lia|].
    destruct (decide (k = j + 1)).
    + intros [= <-]. by rewrite Hc.
    + apply Hmax. lia.
Qed.

Lemma last_slot_from_insert_none d nb i c :
  last_slot_from d 0 nb = None → is_slot c = false →
  last_slot_from d 0 (list_insert_at i c nb) = None.
Proof.
  intros Hn Hc.
  destruct (last_slot_from d 0 (list_insert_at i c nb)) as [j|] eqn:E; [|done].
  destruct (last_slot_from_Some _ _ _ _ E) as (k & l & _ & Hl & Hs & Hd & _).
  apply list_elem_of_lookup_2, elem_of_list_insert_at in Hl as [->|Hl].
  - congruence.
  - apply list_elem_of_lookup_1 in Hl as [k' Hk'].
    by destruct (last_slot_from_None _ _ _ Hn _ _ Hk' Hs).
Qed.

Lemma In_combine_seq {A} (l : list A) s i x :
  In (i, x) (combine (seq s (length l)) l) → s ≤ i ∧ l !! (i - s) = Some x.
Proof.
  revert s. induction l as [|y l IH]; intros s; cbn; [done|].
  intros [[= <- <-]|H].
  - split; [lia|]. by rewrite Nat.sub_diag.
  - apply IH in H as [Hle Hl]. split; [lia|].
    replace (i - s) with (S (i - S s)) by lia. done.
Qed.

End directive_after_slot.

(** ** Further statements about process_block_full *)

(** X1: the lines that are not run lines come out in their order, each
    one as the first loop left it: the second and third loop drop and
    insert run lines only. *)
Theorem non_run_lines_preserved rn sec block :
  List.filter non_run (process_block_full rn block sec false).1
  = List.filter non_run (map (rename_line rn) block).
Proof.
  unfold process_block_full. case_bool_decide as Hb; cbn [orb].
  { by subst. }
  set (p1 := rename_pass rn sec block).
  pose proof (remove_loop_filter sec (p_last p1) (correct_run block) 0
                (p_block p1) [] (p_changes p1)) as Hrm.
  destruct (remove_loop (p_last p1) (correct_run block) sec 0 (p_block p1) []
              (p_changes p1)) as [temp ch].
  cbn [fst] in *.
  rewrite insert_fold_filter by apply RUN_LINE_PATTERN_correct_run.
  cbn [p_block]. rewrite Hrm. cbn [List.filter app].
  unfold p1, rename_pass. by rewrite rename_fold_block.
Qed.

(** X2: the change records account for the length of the result: the
    number of lines returned plus the number of RemovedDirective records
    is the number of lines given plus the number of AddedDirective
    records. *)
Theorem length_accounting rn sec block ex :
  length (process_block_full rn block sec ex).1
  + length (List.filter is_RemovedDirective (process_block_full rn block sec ex).2)
  = length block
    + length (List.filter is_AddedDirective (process_block_full rn block sec ex).2).
Proof.
  destruct ex.
  { by rewrite process_block_full_excluded. }
  unfold process_block_full. case_bool_decide as Hb; cbn [orb].
  { by subst. }
  set (p1 := rename_pass rn sec block).
  pose proof (remove_loop_length sec (p_last p1) (correct_run block) 0
                (p_block p1) [] (p_changes p1)) as Hrm.
  pose proof (remove_loop_changes sec (p_last p1) (correct_run block) 0
                (p_block p1) [] (p_changes p1)) as (rs & Hrs & Frs).
  destruct (remove_loop (p_last p1) (correct_run block) sec 0 (p_block p1) []
              (p_changes p1)) as [temp ch].
  cbn [fst snd] in *. subst ch.
  pose proof (insert_fold_length sec (correct_run block)
                (sorted_items (p_last p1))
                (mkPass1 temp (p_changes p1 ++ rs) (p_last p1))) as Hins.
  pose proof (insert_fold_changes sec (correct_run block)
                (sorted_items (p_last p1))
                (mkPass1 temp (p_changes p1 ++ rs) (p_last p1)))
    as (adds & Hadds & Fadds).
  cbn [p_block p_changes] in Hins, Hadds. rewrite Hadds in Hins |- *.
  assert (length (p_block p1) = length block) as Hl1.
  { unfold p1, rename_pass. rewrite rename_fold_block. cbn.
    by rewrite length_map. }
  assert (Forall (fun c => is_Renamed c = true) (p_changes p1)) as Fren.
  { unfold p1, rename_pass. rewrite rename_fold_changes. cbn.
    apply rename_records_Renamed. }
  rewrite !List.filter_app.
  rewrite (filter_all_false is_RemovedDirective (p_changes p1)),
    (filter_all_true is_RemovedDirective rs),
    (filter_all_false is_RemovedDirective adds),
    (filter_all_false is_AddedDirective (p_changes p1)),
    (filter_all_false is_AddedDirective rs),
    (filter_all_true is_AddedDirective adds); try done.
  - repeat rewrite length_app in Hins. repeat rewrite length_app in Hrm.
    cbn [app length] in *. rewrite app_nil_r. lia.
  - eapply Forall_impl; [exact Frs|]. by intros [].
  - eapply Forall_impl; [exact Fren|]. by intros [].
  - eapply Forall_impl; [exact Fadds|]. by intros [].
  - eapply Forall_impl; [exact Fren|]. by intros [].
Qed.

(** X3: a block for which no change is recorded is returned as it is,
    line by line; the converse does not hold: the block with an indented
    slot line and its run line comes back unchanged with two records. *)
Theorem silent_block_unchanged rn sec block ex :
  ((process_block_full rn block sec ex).2 = [] →
   (process_block_full rn block sec ex).1 = block)
  ∧ ∃ b, (process_block_full rn b sec false).1 = b
         ∧ (process_block_full rn b sec false).2 ≠ [].
Proof.
  split; [apply process_block_full_silent|].
  exists [ln "    ps-t1 = ResourceBodyDiffuse"; NNFix_run].
  split; [|by destruct rn]. by destruct rn.
Qed.

Lemma silent_block_unchanged_witness :
  (process_block_full true
     [ln "ps-t0 = ResourceBodyDiffuse"; NNFix_run; ln "drawindexed = auto"]
     None false).1
  = [ln "ps-t0 = ResourceBodyDiffuse"; NNFix_run; ln "drawindexed = auto"].
Proof.
  apply (proj1 (silent_block_unchanged true None
           [ln "ps-t0 = ResourceBodyDiffuse"; NNFix_run;
            ln "drawindexed = auto"] false)).
  reflexivity.
Defined.

(** X4: renaming is done once and for all: a renamed line is no rename
    target, and processing the result of [process_block_full] again, with
    the same rename option, records no Renamed change. *)
Theorem second_pass_renames_nothing rn sec sec' block :
  (∀ l, rename_line rn (rename_line rn l) = rename_line rn l)
  ∧ List.filter is_Renamed
      (process_block_full rn (process_block_full rn block sec false).1 sec'
         false).2
    = [].
Proof.
  split.
  { intros l. unfold rename_line at 1. by rewrite rename_target_renamed. }
  destruct (process_block_full_changes rn sec'
              (process_block_full rn block sec false).1)
    as (rs & adds & -> & Frs & Fadds).
  rewrite !List.filter_app.
  rewrite (filter_all_false is_Renamed rs), (filter_all_false is_Renamed adds).
  - rewrite !app_nil_r.
    replace (flat_map (rename_record rn sec')
               (process_block_full rn block sec false).1) with (@nil Change);
      [done|].
    symmetry. apply flat_map_all_nil.
    intros l Hl. unfold rename_record.
    apply process_block_full_lines in Hl as [->|(l0 & _ & ->)].
    + by rewrite rename_target_correct_run, andb_false_r.
    + by rewrite rename_target_renamed.
  - eapply Forall_impl; [exact Fadds|]. by intros [].
  - eapply Forall_impl; [exact Frs|]. by intros [].
Qed.

(** X5: after the first loop [last_ps_indices] maps an indentation [d] to
    [j] exactly when line [j] of the block is a slot assignment with
    indentation [d] and no later line is; the positions are those of
    [new_block], which has the length of the block. *)
Theorem last_ps_indices_spec rn sec block d j :
  length (p_block (rename_pass rn sec block)) = length block
  ∧ (p_last (rename_pass rn sec block) !! d = Some j
     ↔ (∃ l, block !! j = Some l ∧ is_slot l = true ∧ indent_of l = d)
       ∧ ∀ k l', j < k → block !! k = Some l' → is_slot l' = true →
                 indent_of l' ≠ d).
Proof.
  split.
  { unfold rename_pass. rewrite rename_fold_block. cbn. by rewrite length_map. }
  rewrite rename_pass_last. split.
  - intros (k & l & -> & Hk & Hs & Hd & Hmax)%last_slot_from_Some.
    split; [by exists l | done].
  - intros [(l & Hj & Hs & Hd) Hmax].
    destruct (last_slot_from d 0 block) as [j'|] eqn:E.
    + destruct (last_slot_from_Some _ _ _ _ E)
        as (k & l' & -> & Hk & Hs' & Hd' & Hmax').
      f_equal. cbn. destruct (Nat.lt_trichotomy k j) as [Hlt|[->|Hlt]].
      * by destruct (Hmax' _ _ Hlt Hj Hs).
      * done.
      * by destruct (Hmax _ _ Hlt Hk Hs').
    + by destruct (last_slot_from_None _ _ _ E _ _ Hj Hs).
Qed.

(** X6: on a block without run lines whose slot assignments all have
    one indentation, directive correctness holds: the correct run line
    stands right after the last slot assignment, one AddedDirective record
    follows the renames, and at every depth the line after the last slot
    assignment is the correct run line and no other run line has that
    indentation. *)
Theorem fresh_block_directive_correct rn sec block d :
  Forall (fun l => RUN_LINE_PATTERN l = false) block →
  Forall (fun l => ps_t_digits (lstrip l) = true → indent_of l = d) block →
  process_block_full rn block sec false
  = match last_slot_from d 0 block with
    | Some j =>
        (list_insert_at (j + 1) (correct_run block)
           (map (rename_line rn) block),
         flat_map (rename_record rn sec) block
           ++ [AddedDirective sec (strip (correct_run block))])
    | None => (map (rename_line rn) block, flat_map (rename_record rn sec) block)
    end
  ∧ ∀ d',
      directive_correct_at (correct_run block)
        (process_block_full rn block sec false).1 d' = true.
Proof.
  intros Hrun Hdepth.
  pose proof (process_block_full_fresh rn sec block d Hrun Hdepth) as Hfresh.
  split; [done|]. intros d'. rewrite Hfresh. clear Hfresh.
  set (nb := map (rename_line rn) block). set (c := correct_run block).
  assert (Forall (fun l => RUN_LINE_PATTERN l = false) nb) as Hrun'.
  { apply Forall_fmap. eapply Forall_impl; [exact Hrun|].
    intros l. apply rename_line_not_run. }
  assert (Forall (fun l => ps_t_digits (lstrip l) = true → indent_of l = d) nb)
    as Hdepth'.
  { apply Forall_fmap. eapply Forall_impl; [exact Hdepth|].
    intros l Hl. cbn.
    destruct (rename_line_shape rn l) as (_ & -> & Hs & _).
    unfold is_slot in Hs. by rewrite Hs. }
  assert (is_slot c = false) as Hc by apply is_slot_correct_run.
  pose proof (last_slot_from_rename rn d 0 block) as Hlast. fold nb in Hlast.
  assert (d' ≠ d → last_slot_from d' 0 nb = None) as Hother.
  { intros Hne. by apply (last_slot_from_other d). }
  unfold directive_correct_at.
  destruct (last_slot_from d 0 block) as [j|] eqn:Ej; cbn [fst].
  - destruct (decide (d' = d)) as [->|Hne].
    + rewrite (last_slot_from_insert_after d nb j c Hlast Hc).
      destruct (last_slot_from_Some d 0 nb j Hlast) as (k & l & Hk & Hl & _).
      cbn in Hk. subst k. pose proof (lookup_lt_Some _ _ _ Hl) as Hlt.
      apply andb_true_iff. split.
      * apply bool_decide_eq_true. rewrite lookup_list_insert_at by lia.
        destruct (decide (j + 1 < j + 1)); [lia|].
        by destruct (decide (j + 1 = j + 1)).
      * apply forallb_forall. intros [i x] [_ Hx]%In_combine_seq.
        rewrite Nat.sub_0_r in Hx. cbn [fst snd].
        rewrite lookup_list_insert_at in Hx by lia.
        destruct (decide (i = j + 1)) as [->|Hi].
        { by rewrite bool_decide_eq_true_2. }
        assert (x ∈ nb) as Hin.
        { destruct (decide (i < j + 1));
            by eapply list_elem_of_lookup_2. }
        rewrite Forall_forall in Hrun'. rewrite (Hrun' x Hin).
        by rewrite orb_true_r.
    + by rewrite (last_slot_from_insert_none d' nb (j + 1) c (Hother Hne) Hc).
  - destruct (decide (d' = d)) as [->|Hne].
    + by rewrite Hlast.
    + by rewrite (Hother Hne).
Qed.

Lemma fresh_block_directive_correct_witness :
  directive_correct_at (correct_run block_indented_slot)
    (process_block_full true block_indented_slot None false).1 4 = true.
Proof.
  refine (proj2 (fresh_block_directive_correct true None block_indented_slot 4
            _ _) 4).
  - repeat constructor.
  - repeat (apply List.Forall_cons;
            [intros H; first [reflexivity | vm_compute in H; discriminate H]|]).
    apply List.Forall_nil.
Defined.

(** X7: the table update inside the third loop never reaches the result:
    the loop walks through pairs listed before it starts, so the block and
    the changes it returns are the same whatever table it is started with
    and whatever the update writes into it. *)
Theorem index_adjustment_is_dead sec correct items b ch (m m' : gmap nat nat) :
  let r := fold_left (insert_step correct sec) items (mkPass1 b ch m) in
  let r' := fold_left (insert_step correct sec) items (mkPass1 b ch m') in
  p_block r = p_block r' ∧ p_changes r = p_changes r'.
Proof.
  cbn zeta. revert b ch m m'.
  induction items as [|it items IH]; intros b ch m m'; [done|].
  cbn [fold_left]. unfold insert_step. cbn [p_block p_changes p_last].
  case_bool_decide; apply IH.
Qed.

(** X8: a block without any slot assignment loses all its run lines:
    each one is removed and recorded, nothing is renamed or inserted, and
    the other lines stay in place. *)
Theorem no_slot_block_loses_run_lines rn sec block :
  Forall (fun l => is_slot l = false) block →
  process_block_full rn block sec false
  = (List.filter non_run block,
     map (removal_record sec) (List.filter RUN_LINE_PATTERN block)).
Proof.
  intros Hb. unfold process_block_full. case_bool_decide as Hnil; cbn [orb].
  { by subst. }
  set (p1 := rename_pass rn sec block).
  assert (map (rename_line rn) block = block
          ∧ flat_map (rename_record rn sec) block = []) as [Hmap Hrec].
  { clear Hnil p1. induction Hb as [|l block Hl _ [IH1 IH2]]; [done|].
    cbn. unfold rename_line at 1, rename_record at 1.
    destruct (rename_target l) eqn:E.
    { apply rename_target_slot in E. congruence. }
    rewrite andb_false_r. cbn. by rewrite IH1, IH2. }
  assert (p_last p1 = ∅) as ->.
  { apply map_eq. intros d. unfold p1.
    by rewrite rename_pass_last, last_slot_from_no_slot, lookup_empty. }
  rewrite remove_loop_empty_table, sorted_items_empty. cbn [fold_left].
  cbn [p_block p_changes]. unfold p1, rename_pass.
  rewrite rename_fold_block, rename_fold_changes. cbn [p_block p_changes app].
  by rewrite Hmap, Hrec.
Qed.

Lemma no_slot_block_loses_run_lines_witness :
  process_block_full true [ln "if $swapvar == 1"; ORFix_run; ln "endif"]
    None false
  = ([ln "if $swapvar == 1"; ln "endif"],
     [RemovedDirective None "run = CommandList\global\ORFix\ORFix"]).
Proof.
  apply (no_slot_block_loses_run_lines true None
           [ln "if $swapvar == 1"; ORFix_run; ln "endif"]).
  repeat constructor.
Defined.

(** ** Further statements about the patterns *)

(** X9: the five kinds of line the code tells apart exclude one another:
    a section header, a swap-conditional line, an [endif] line, a run line
    and a slot assignment start, after leading whitespace, with different
    characters, so the order of the tests never decides. *)
Theorem line_kinds_disjoint line :
  (is_header (strip line) = true →
     SWAPVAR_PATTERN line = None ∧ endif_match line = false
     ∧ RUN_LINE_PATTERN line = false ∧ is_slot line = false)
  ∧ (is_Some (SWAPVAR_PATTERN line) →
       endif_match line = false ∧ RUN_LINE_PATTERN line = false
       ∧ is_slot line = false)
  ∧ (endif_match line = true →
       RUN_LINE_PATTERN line = false ∧ is_slot line = false)
  ∧ (RUN_LINE_PATTERN line = true → is_slot line = false).
Proof.
  assert (∀ c, hd_lower (lstrip line) = Some c → c ≠ lower "["%char →
               is_header (strip line) = true → False) as Hhdr.
  { intros c Hc Hne Hh. pose proof (not_header_by_hd line c Hc Hne) as Hn.
    unfold not_header in Hn. congruence. }
  assert (endif_match line = true → RUN_LINE_PATTERN line = false) as Her.
  { intros He%endif_match_hd. destruct (RUN_LINE_PATTERN line) eqn:Er; [|done].
    apply RUN_LINE_PATTERN_hd in Er. rewrite He in Er. vm_compute in Er.
    discriminate. }
  assert (endif_match line = true → is_slot line = false) as Hes.
  { intros He%endif_match_hd. unfold is_slot.
    destruct (ps_t_digits (lstrip line)) eqn:Es; [|done].
    apply ps_t_digits_hd in Es. rewrite He in Es. vm_compute in Es.
    discriminate. }
  split; [|split; [|split]].
  - intros Hh. split; [|split; [|split]].
    + destruct (SWAPVAR_PATTERN line) as [d|] eqn:E; [|done].
      destruct (SWAPVAR_PATTERN_excl line d E) as (Hn & _).
      unfold not_header in Hn. congruence.
    + destruct (endif_match line) eqn:E; [|done].
      destruct (endif_match_excl line E) as (Hn & _).
      unfold not_header in Hn. congruence.
    + destruct (RUN_LINE_PATTERN line) eqn:E; [|done].
      apply RUN_LINE_PATTERN_hd in E. by destruct (Hhdr _ E).
    + unfold is_slot. destruct (ps_t_digits (lstrip line)) eqn:E; [|done].
      apply ps_t_digits_hd in E. by destruct (Hhdr _ E).
  - intros [d Hd]. destruct (SWAPVAR_PATTERN_excl line d Hd) as (_ & ? & ? & _).
    split; [|done]. destruct (endif_match line) eqn:E; [|done].
    destruct (endif_match_excl line E) as (_ & ?). congruence.
  - auto.
  - intros Hr. by destruct (RUN_LINE_PATTERN_excl line Hr) as [? _].
Qed.

Lemma line_kinds_disjoint_witness :
  RUN_LINE_PATTERN (ln "  EndIf") = false ∧ is_slot (ln "  EndIf") = false.
Proof.
  apply (proj1 (proj2 (proj2 (line_kinds_disjoint (ln "  EndIf"))))).
  reflexivity.
Defined.


(** ** Further statements about process_ini_preview *)

(** X11: when no swap-conditional line comes before the first section
    header, the tokenizer keeps the order of the lines: the result is that
    of a sequence of items whose lines, read in sequence, are the input;
    every block in it is non-empty, is processed under the name and the
    exclusion flag of a section of the file, holds no header line, and can
    open a swap-conditional with its first line only. *)
Theorem blocks_in_order rn excl lines :
  no_early_swapvar lines = true →
  ∃ items,
    process_ini_preview rn excl lines = ((emit rn items).2, (emit rn items).1)
    ∧ flat_map item_lines items = lines
    ∧ Forall (item_ok excl lines) items.
Proof.
  intros Hlines.
  destruct (ordered_final rn excl lines Hlines)
    as (items & Hn & Hc & Hl & Hok & _).
  exists items. unfold process_ini_preview.
  rewrite finish_flush_pending, Hn, Hc. split; [done|].
  by rewrite flush_pending_block, app_nil_r in Hl.
Qed.

Lemma blocks_in_order_witness :
  ∃ items,
    process_ini_preview true ∅
      [ln "; comment"; ln "[TextureOverrideBody]"; ln "if $swapvar == 0";
       ln "ps-t0 = ResourceBodyDiffuse"; ln "endif"]
    = ((emit true items).2, (emit true items).1)
    ∧ flat_map item_lines items
      = [ln "; comment"; ln "[TextureOverrideBody]"; ln "if $swapvar == 0";
         ln "ps-t0 = ResourceBodyDiffuse"; ln "endif"]
    ∧ Forall
        (item_ok ∅
           [ln "; comment"; ln "[TextureOverrideBody]"; ln "if $swapvar == 0";
            ln "ps-t0 = ResourceBodyDiffuse"; ln "endif"]) items.
Proof.
  apply (blocks_in_order true ∅
           [ln "; comment"; ln "[TextureOverrideBody]"; ln "if $swapvar == 0";
            ln "ps-t0 = ResourceBodyDiffuse"; ln "endif"]).
  reflexivity.
Defined.

(** X12: when no swap-conditional line comes before the first section
    header and no change is reported for a file, the lines returned are
    the lines read: a file the driver does not rewrite is a file the
    tokenizer would not have altered. *)
Theorem silent_file_unchanged rn excl lines :
  no_early_swapvar lines = true →
  (process_ini_preview rn excl lines).1 = [] →
  (process_ini_preview rn excl lines).2 = lines.
Proof.
  intros Hlines.
  destruct (ordered_final rn excl lines Hlines)
    as (items & Hn & Hc & Hl & _).
  unfold process_ini_preview. rewrite finish_flush_pending. cbn.
  rewrite Hn, Hc. intros Hs%emit_silent. rewrite Hs.
  by rewrite flush_pending_block, app_nil_r in Hl.
Qed.

Lemma silent_file_unchanged_witness :
  (process_ini_preview true ∅
     [ln "[TextureOverrideBody]"; ln "ps-t0 = ResourceBodyDiffuse";
      NNFix_run]).2
  = [ln "[TextureOverrideBody]"; ln "ps-t0 = ResourceBodyDiffuse"; NNFix_run].
Proof.
  apply (silent_file_unchanged true ∅
           [ln "[TextureOverrideBody]"; ln "ps-t0 = ResourceBodyDiffuse";
            NNFix_run]); reflexivity.
Defined.

(** X13: when no swap-conditional line comes before the first section
    header and every section header of the file is excluded, by a pattern
    or by the given set, the file comes back line by line and no change is
    reported, whatever the rename option. *)
Theorem all_sections_excluded rn excl lines :
  no_early_swapvar lines = true →
  (∀ h, h ∈ lines → is_header_line h = true →
        excluded_section excl (Some (strip h)) = true) →
  process_ini_preview rn excl lines = ([], lines).
Proof.
  intros Hlines Hex.
  destruct (ordered_final rn excl lines Hlines)
    as (items & Hn & Hc & Hl & Hok & _).
  unfold process_ini_preview. rewrite finish_flush_pending, Hn, Hc.
  rewrite (emit_all_excluded rn excl items lines Hok Hex). cbn.
  rewrite flush_pending_block, app_nil_r in Hl. by rewrite Hl.
Qed.

Lemma all_sections_excluded_witness :
  process_ini_preview true {["[TextureOverrideBody]"]}
    [ln "[TextureOverrideBody]"; ln "if $swapvar == 0";
     ln "ps-t0 = ResourceExtraDiffuse"; ln "endif"]
  = ([], [ln "[TextureOverrideBody]"; ln "if $swapvar == 0";
          ln "ps-t0 = ResourceExtraDiffuse"; ln "endif"]).
Proof.
  apply (all_sections_excluded true {["[TextureOverrideBody]"]}
           [ln "[TextureOverrideBody]"; ln "if $swapvar == 0";
            ln "ps-t0 = ResourceExtraDiffuse"; ln "endif"]).
  - reflexivity.
  - intros h Hh Hhdr.
    apply list_elem_of_In in Hh. cbn in Hh.
    destruct Hh as [<-|[<-|[<-|[<-|[]]]]]; try discriminate Hhdr.
    reflexivity.
Defined.

(** X14: sections are processed independently of what precedes them: at
    a section header the result of the whole input is the result of the
    lines before the header followed by the result of the lines from the
    header on. *)
Theorem sections_independent rn excl a h b :
  is_header_line h = true →
  process_ini_preview rn excl (a ++ h :: b)
  = ((process_ini_preview rn excl a).1 ++ (process_ini_preview rn excl (h :: b)).1,
     (process_ini_preview rn excl a).2 ++ (process_ini_preview rn excl (h :: b)).2).
Proof.
  intros Hh. unfold is_header_line in Hh. unfold process_ini_preview.
  rewrite run_lines_app, !run_lines_cons, !(step_header rn excl _ h Hh).
  rewrite (finish_flush_pending rn (run_lines rn excl a initial_state)).
  set (sa := flush_pending rn (run_lines rn excl a initial_state)).
  cbn [fst snd].
  apply shifted_finish, shifted_run_lines. unfold shifted. cbn.
  by rewrite app_nil_r.
Qed.

Lemma sections_independent_witness :
  process_ini_preview false ∅
    ([ln "[TextureOverrideA]"; ln "ps-t0 = a"]
     ++ ln "[TextureOverrideB]" :: [ln "ps-t0 = b"])
  = ((process_ini_preview false ∅ [ln "[TextureOverrideA]"; ln "ps-t0 = a"]).1
     ++ (process_ini_preview false ∅
           [ln "[TextureOverrideB]"; ln "ps-t0 = b"]).1,
     (process_ini_preview false ∅ [ln "[TextureOverrideA]"; ln "ps-t0 = a"]).2
     ++ (process_ini_preview false ∅
           [ln "[TextureOverrideB]"; ln "ps-t0 = b"]).2).
Proof.
  apply (sections_independent false ∅
           [ln "[TextureOverrideA]"; ln "ps-t0 = a"] (ln "[TextureOverrideB]")
           [ln "ps-t0 = b"]).
  reflexivity.
Defined.

(** X15: section headers are never lost, added, changed or reordered: the
    header lines of the returned lines are the header lines of the input,
    in the same order, for every input. *)
Theorem headers_preserved rn excl lines :
  List.filter is_header_line (process_ini_preview rn excl lines).2
  = List.filter is_header_line lines.
Proof.
  unfold process_ini_preview. rewrite finish_flush_pending. cbn [snd].
  destruct (headers_run_lines rn excl lines initial_state) as [Hb Hr].
  { constructor. }
  by rewrite headers_flush_pending, Hr.
Qed.

(** ** An auto-excluded section, wherever it stands in the file *)

Section auto_excluded_section.

Context (rn : bool) (excl : gset string).

Lemma run_lines_excluded_state rest st :
  Forall not_header rest → inside_section st = true →
  inside_excluded st = true →
  inside_section (run_lines rn excl rest st) = true
  ∧ inside_excluded (run_lines rn excl rest st) = true
  ∧ all_changes (run_lines rn excl rest st) = all_changes st
  ∧ new_lines (run_lines rn excl rest st)
      ++ block_lines (run_lines rn excl rest st)
    = new_lines st ++ block_lines st ++ rest.
Proof.
  intros Hrest. revert st.
  induction Hrest as [|l rest Hl _ IH]; intros st Hs He.
  - cbn. by rewrite app_nil_r.
  - rewrite run_lines_cons.
    destruct (step_excluded rn excl st l Hl Hs He) as (Hs' & He' & Hc & Hn).
    destruct (IH _ Hs' He') as (? & ? & Hc' & Hn').
    repeat split; try done; [congruence|].
    rewrite Hn', app_assoc, Hn, <- !app_assoc. done.
Qed.

(** The lines of an excluded section, up to the next header or the end
    of the input, go to the output as they are; what follows is processed
    as if the input began there. *)
Lemma excluded_section_output rest post st :
  Forall not_header rest → starts_section post →
  inside_section st = true → inside_excluded st = true →
  finish rn (run_lines rn excl (rest ++ post) st)
  = (all_changes st ++ (process_ini_preview rn excl post).1,
     new_lines st ++ block_lines st ++ rest
       ++ (process_ini_preview rn excl post).2).
Proof.
  intros Hrest Hpost Hs He. rewrite run_lines_app.
  destruct (run_lines_excluded_state rest st Hrest Hs He)
    as (Hs' & He' & Hc & Hn).
  set (s := run_lines rn excl rest st) in *.
  destruct (flush_pending_excluded rn s He') as [Hfn Hfc].
  destruct post as [|h2 post].
  - cbn [run_lines fold_left]. rewrite finish_flush_pending, Hfn, Hfc, Hc, Hn.
    cbn. by rewrite !app_nil_r.
  - cbn in Hpost. unfold is_header_line in Hpost.
    unfold process_ini_preview.
    rewrite !run_lines_cons, !(step_header rn excl _ h2 Hpost).
    rewrite Hfn, Hfc, Hc, Hn.
    match goal with |- finish rn (run_lines rn excl post ?s') = _ =>
      rewrite (shifted_finish rn (new_lines st ++ block_lines st ++ rest)
                 (all_changes st)
                 (run_lines rn excl post
                    (mkState ([] ++ [h2]) [] (Some (strip h2)) true
                       (AUTO_EXCLUDE_PATTERNS (strip h2)
                        || bool_decide (strip h2 ∈ excl)) None []))
                 (run_lines rn excl post s')) end.
    + by rewrite <- !app_assoc.
    + apply shifted_run_lines. unfold shifted. cbn.
      by rewrite app_nil_r, <- !app_assoc.
Qed.

End auto_excluded_section.

(** C3: after a header that matches an auto-exclude pattern, whatever the
    rename option, the manual exclusion set and the state the loop is in,
    the section is excluded and every block handed over under it comes
    back unchanged with no change record; the lines of the section, up to
    the next header or the end of the input, reach the output as they
    are, in order, with nothing recorded, wherever the section stands in
    the file: the lines before it and the sections after it are processed
    as they are without it. *)
Theorem auto_exclude_absolute rn excl st h rest post :
  is_header (strip h) = true →
  AUTO_EXCLUDE_PATTERNS (strip h) = true →
  Forall not_header rest →
  starts_section post →
  let st' := step rn excl st h in
  inside_excluded st' = true
  ∧ current_section st' = Some (strip h)
  ∧ (∀ block,
       process_block_full rn block (current_section st') (inside_excluded st')
       = (block, []))
  ∧ finish rn (run_lines rn excl (rest ++ post) st')
    = (all_changes st' ++ (process_ini_preview rn excl post).1,
       new_lines st' ++ rest ++ (process_ini_preview rn excl post).2)
  ∧ ∀ pre,
      process_ini_preview rn excl (pre ++ h :: rest ++ post)
      = ((process_ini_preview rn excl pre).1
           ++ (process_ini_preview rn excl post).1,
         (process_ini_preview rn excl pre).2 ++ h :: rest
           ++ (process_ini_preview rn excl post).2).
Proof.
  intros Hh Ha Hrest Hpost. cbn zeta.
  assert (∀ s, finish rn (run_lines rn excl (rest ++ post) (step rn excl s h))
               = (all_changes (step rn excl s h)
                    ++ (process_ini_preview rn excl post).1,
                  new_lines (step rn excl s h) ++ rest
                    ++ (process_ini_preview rn excl post).2)) as Hout.
  { intros s.
    rewrite (excluded_section_output rn excl rest post _ Hrest Hpost);
      rewrite (step_header rn excl s h Hh);
      cbn [inside_excluded inside_section all_changes new_lines block_lines
           app]; [done|done|].
    by rewrite Ha. }
  split; [|split; [|split; [|split]]].
  - rewrite (step_header rn excl st h Hh). cbn [inside_excluded].
    by rewrite Ha.
  - by rewrite (step_header rn excl st h Hh).
  - intros block. rewrite (step_header rn excl st h Hh).
    cbn [inside_excluded current_section]. rewrite Ha.
    apply process_block_full_excluded.
  - apply Hout.
  - intros pre. unfold process_ini_preview at 1.
    rewrite run_lines_app, run_lines_cons, Hout.
    rewrite (step_header rn excl _ h Hh). cbn [all_changes new_lines].
    change (process_ini_preview rn excl pre)
      with (finish rn (run_lines rn excl pre initial_state)).
    rewrite (finish_flush_pending rn (run_lines rn excl pre initial_state)).
    cbn [fst snd]. by rewrite <- !app_assoc.
Qed.

Lemma auto_exclude_absolute_witness :
  process_ini_preview true ∅
    ([ln "; mod"]
     ++ ln "[TextureOverrideCharacterIB]"
        :: [ln "ps-t0 = ResourceExtraDiffuse";
            ln "  run = CommandList\global\ORFix\NNFix"]
     ++ [ln "[TextureOverrideBody]"; ln "ps-t0 = ResourceBodyDiffuse"])
  = ((process_ini_preview true ∅ [ln "; mod"]).1
       ++ (process_ini_preview true ∅
             [ln "[TextureOverrideBody]"; ln "ps-t0 = ResourceBodyDiffuse"]).1,
     (process_ini_preview true ∅ [ln "; mod"]).2
       ++ ln "[TextureOverrideCharacterIB]"
          :: [ln "ps-t0 = ResourceExtraDiffuse";
              ln "  run = CommandList\global\ORFix\NNFix"]
       ++ (process_ini_preview true ∅
             [ln "[TextureOverrideBody]"; ln "ps-t0 = ResourceBodyDiffuse"]).2).
Proof.
  apply (proj2 (proj2 (proj2 (proj2 (auto_exclude_absolute true ∅
           initial_state (ln "[TextureOverrideCharacterIB]")
           [ln "ps-t0 = ResourceExtraDiffuse";
            ln "  run = CommandList\global\ORFix\NNFix"]
           [ln "[TextureOverrideBody]"; ln "ps-t0 = ResourceBodyDiffuse"]
           ltac:(reflexivity) ltac:(reflexivity)
           ltac:(repeat constructor) ltac:(reflexivity)))))
           [ln "; mod"]).
Defined.

(** ** Statements about the questions of main *)

(** X16: the question loop skips every input that is not y or n (after
    stripping, in either case) and takes the first one that is; when no
    input is valid the inputs run out without an answer. *)
Theorem ask_yn_first_valid junk a rest :
  Forall (fun i => valid_answer i = false) junk →
  valid_answer a = true →
  ask_yn (junk ++ a :: rest)
  = Some (bool_decide (lower_str (strip a) = "y"), rest)
  ∧ ask_yn junk = None.
Proof.
  intros Hjunk Ha. induction Hjunk as [|i junk Hi _ [IH1 IH2]].
  - split; [|done]. cbn [app ask_yn]. unfold valid_answer in Ha.
    case_bool_decide; [done|]. cbn in Ha. by rewrite Ha.
  - split.
    + change ((i :: junk) ++ a :: rest) with (i :: (junk ++ a :: rest)).
      by rewrite ask_yn_invalid.
    + by rewrite ask_yn_invalid.
Qed.

Lemma ask_yn_first_valid_witness :
  ask_yn (["yes"; ""] ++ " Y " :: ["n"]) = Some (true, ["n"])
  ∧ ask_yn ["yes"; ""] = None.
Proof.
  apply (ask_yn_first_valid ["yes"; ""] " Y " ["n"]).
  - repeat constructor.
  - reflexivity.
Defined.

(** X17: the exclusion set main builds holds sections that were found
    only, holds every found section that matches an auto-exclude pattern,
    and is built from a prefix of the inputs; when every found section
    matches a pattern, it is the set of found sections and no input is
    read at all. *)
Theorem exclude_sections_built found inputs :
  (∀ ex rest,
     build_exclude_sections found inputs = Some (ex, rest) →
     ex ⊆ found
     ∧ (∀ s, s ∈ found → AUTO_EXCLUDE_PATTERNS s = true → s ∈ ex)
     ∧ ∃ used, inputs = used ++ rest)
  ∧ ((∀ s, s ∈ found → AUTO_EXCLUDE_PATTERNS s = true) →
     build_exclude_sections found inputs = Some (found, inputs)).
Proof.
  unfold build_exclude_sections. split.
  - intros ex rest (_ & H2 & H3 & H4)%exclude_loop_spec.
    split; [|split; [|done]].
    + intros s [Hs|Hs]%H2; [by apply elem_of_empty in Hs|].
      by apply elem_of_sorted_elements.
    + intros s Hs. apply H3. by apply elem_of_sorted_elements.
  - intros Hall. rewrite exclude_loop_all_auto.
    + f_equal. f_equal. rewrite (right_id_L ∅ (∪)).
      apply set_eq. intros s.
      by rewrite elem_of_list_to_set, elem_of_sorted_elements.
    + apply Forall_forall. intros s Hs%elem_of_sorted_elements. auto.
Qed.

Lemma exclude_sections_built_witness :
  build_exclude_sections
    {["[TextureOverrideBodyIB]"; "[TextureOverrideBodyPosition]"]} []
  = Some ({["[TextureOverrideBodyIB]"; "[TextureOverrideBodyPosition]"]}, []).
Proof.
  apply (proj2 (exclude_sections_built
           {["[TextureOverrideBodyIB]"; "[TextureOverrideBodyPosition]"]} [])).
  intros s [->%elem_of_singleton| ->%elem_of_singleton]%elem_of_union;
    reflexivity.
Defined.

(** X18: with the exclusion set main builds from the files it scanned, the
    set alone decides the exclusion at every header of such a file: the
    pattern test of the tokenizer adds nothing to it. *)
Theorem exclusion_decided_by_set files inputs ex rest lines h rn st :
  build_exclude_sections (sections_found files) inputs = Some (ex, rest) →
  lines ∈ files → h ∈ lines → is_header_line h = true →
  inside_excluded (step rn ex st h) = bool_decide (strip h ∈ ex).
Proof.
  intros Hbuild Hfile Hh Hhdr.
  rewrite (step_header rn ex st h Hhdr). cbn [inside_excluded].
  destruct (AUTO_EXCLUDE_PATTERNS (strip h)) eqn:Ea; [|done].
  cbn [orb]. symmetry. apply bool_decide_eq_true.
  unfold build_exclude_sections in Hbuild.
  apply exclude_loop_spec in Hbuild as (_ & _ & Hauto & _).
  apply Hauto; [|done]. apply elem_of_sorted_elements. unfold sections_found.
  apply elem_of_union_list. exists (scan_sections lines). split.
  - apply list_elem_of_fmap. by exists lines.
  - apply elem_of_scan_sections. by exists h.
Qed.

Lemma exclusion_decided_by_set_witness :
  inside_excluded
    (step true {["[TextureOverrideBodyIB]"]} initial_state
       (ln "[TextureOverrideBodyIB]"))
  = bool_decide
      (strip (ln "[TextureOverrideBodyIB]")
         ∈ ({["[TextureOverrideBodyIB]"]} : gset string)).
Proof.
  apply (exclusion_decided_by_set
           [[ln "[TextureOverrideBodyIB]"; ln "ps-t0 = ResourceBodyDiffuse"]]
           [] {["[TextureOverrideBodyIB]"]} []
           [ln "[TextureOverrideBodyIB]"; ln "ps-t0 = ResourceBodyDiffuse"]
           (ln "[TextureOverrideBodyIB]") true initial_state).
  - vm_compute. reflexivity.
  - constructor.
  - constructor.
  - reflexivity.
Defined.

(** ** Every line is routed once *)

Section route_facts.

Context (rn : bool) (excl : gset string).

Lemma route_run_cons l lines rt :
  route_run excl (l :: lines) rt = route_run excl lines (route_step excl rt l).
Proof. done. Qed.

Lemma route_flush_block rt : r_block (route_flush rt) = [].
Proof. unfold route_flush. by case_bool_decide. Qed.

Lemma route_flush_flags rt :
  r_section (route_flush rt) = r_section rt
  ∧ r_inside (route_flush rt) = r_inside rt
  ∧ r_excluded (route_flush rt) = r_excluded rt.
Proof. unfold route_flush. by case_bool_decide. Qed.

(** *** The loop follows the routing *)

Lemma simulates_flush_pending st rt :
  simulates rn st rt → simulates rn (flush_pending rn st) (route_flush rt).
Proof.
  intros (Hn & Hc & Hb & Hs & Hi & He). unfold flush_pending, route_flush.
  rewrite Hb. case_bool_decide; [done|].
  unfold flush, simulates. rewrite Hb, Hs, He. cbn [r_items].
  rewrite emit_app, emit_flushed.
  destruct (process_block_full rn (r_block rt) (r_section rt) (r_excluded rt)).
  cbn. by rewrite Hn, Hc, Hi.
Qed.

Lemma simulates_step st rt line :
  simulates rn st rt →
  simulates rn (step rn excl st line) (route_step excl rt line).
Proof.
  intros H. pose proof (simulates_flush_pending _ _ H)
    as (Hn1 & Hc1 & Hb1 & Hs1 & Hi1 & He1).
  destruct H as (Hn & Hc & Hb & Hs & Hi & He).
  unfold step, route_step. destruct (is_header (strip line)).
  { unfold simulates. cbn. rewrite emit_app, emit_verbatim. cbn.
    by rewrite Hn1, Hc1, Hb1, app_nil_r. }
  destruct (SWAPVAR_PATTERN line).
  { unfold simulates. cbn. by rewrite Hn1, Hc1, Hb1, Hs1, Hi1, He1. }
  rewrite Hi. destruct (r_inside rt && endif_match line).
  { unfold flush, simulates. cbn. rewrite Hb, Hs, He.
    rewrite emit_app, emit_flushed.
    destruct (process_block_full rn (r_block rt ++ [line]) (r_section rt)
                (r_excluded rt)).
    cbn. by rewrite Hn, Hc. }
  destruct (r_inside rt); unfold simulates; cbn.
  - by rewrite Hn, Hc, Hb, Hs, He.
  - rewrite emit_app, emit_verbatim. cbn.
    by rewrite Hn, Hc, Hb, Hs, He, app_nil_r.
Qed.

Lemma simulates_run lines st rt :
  simulates rn st rt →
  simulates rn (run_lines rn excl lines st) (route_run excl lines rt).
Proof.
  revert st rt. induction lines as [|l lines IH]; intros st rt H; [done|].
  rewrite run_lines_cons, route_run_cons. apply IH. by apply simulates_step.
Qed.

(** *** What the routing keeps *)

Lemma route_inv_flush consumed rt :
  route_inv excl consumed rt → route_inv excl consumed (route_flush rt).
Proof.
  intros (Hp & Hne & Hfl & Hex). unfold route_flush.
  case_bool_decide as Hb; [done|]. unfold route_inv. cbn.
  rewrite flat_map_app. cbn. rewrite !app_nil_r.
  repeat split; try done; apply Forall_app; split; try done;
    by repeat constructor.
Qed.

Lemma route_inv_step consumed rt line :
  route_inv excl consumed rt →
  route_inv excl (consumed ++ [line]) (route_step excl rt line).
Proof.
  intros H. pose proof (route_inv_flush _ _ H) as (Hp1 & Hne1 & Hfl1 & Hex1).
  pose proof (route_flush_block rt) as Hb1.
  destruct (route_flush_flags rt) as (Fs & Fi & Fe).
  rewrite Hb1, app_nil_r in Hp1.
  destruct H as (Hp & Hne & Hfl & Hex).
  unfold route_step. destruct (is_header (strip line)).
  { unfold route_inv. cbn. rewrite Hb1, flat_map_app, Hp1. cbn.
    rewrite !app_nil_r. repeat split; try done;
      apply Forall_app; split; try done; by repeat constructor. }
  destruct (SWAPVAR_PATTERN line).
  { unfold route_inv. cbn. rewrite Hb1, Hp1. cbn. by rewrite Fs, Fe. }
  destruct (r_inside rt && endif_match line).
  { unfold route_inv. cbn. rewrite flat_map_app. cbn.
    rewrite !app_nil_r, app_assoc, Hp.
    repeat split; try done; apply Forall_app; split; try done;
      repeat constructor; try done.
    cbn. by destruct (r_block rt). }
  destruct (r_inside rt); unfold route_inv; cbn.
  - by rewrite app_assoc, Hp.
  - rewrite flat_map_app. cbn. rewrite ?app_nil_r.
    repeat split; try done.
    + rewrite <- Hp. rewrite <- !app_assoc.
      apply Permutation_app_head, Permutation_app_comm.
    + apply Forall_app. split; [done|]. by repeat constructor.
    + apply Forall_app. split; [done|]. by repeat constructor.
Qed.

Lemma route_inv_run lines consumed rt :
  route_inv excl consumed rt →
  route_inv excl (consumed ++ lines) (route_run excl lines rt).
Proof.
  revert consumed rt. induction lines as [|l lines IH]; intros consumed rt H.
  - by rewrite app_nil_r.
  - rewrite route_run_cons.
    replace (consumed ++ l :: lines) with ((consumed ++ [l]) ++ lines)
      by (by rewrite <- app_assoc).
    apply IH. by apply route_inv_step.
Qed.

(** *** Which lines go to the output as they are *)

Lemma verbatim_lines_app a b :
  verbatim_lines (a ++ b) = verbatim_lines a ++ verbatim_lines b.
Proof. apply flat_map_app. Qed.

Lemma verbatim_route_flush rt :
  verbatim_lines (r_items (route_flush rt)) = verbatim_lines (r_items rt).
Proof.
  unfold route_flush. case_bool_decide; [done|]. cbn.
  rewrite verbatim_lines_app. cbn. by rewrite app_nil_r.
Qed.

Lemma route_step_keeps_inside rt line :
  r_inside rt = true → r_inside (route_step excl rt line) = true.
Proof.
  intros Hi. unfold route_step. destruct (route_flush_flags rt) as (_ & F & _).
  destruct (is_header (strip line)); [done|].
  destruct (SWAPVAR_PATTERN line); [cbn; congruence|].
  rewrite Hi. cbn [andb]. by destruct (endif_match line).
Qed.

Lemma verbatim_step rt l :
  verbatim_lines (r_items (route_step excl rt l))
  = verbatim_lines (r_items rt)
    ++ (if is_header (strip l) then [l]
        else if r_inside rt then []
        else if no_swapvar l then [l] else []).
Proof.
  unfold route_step, no_swapvar. pose proof (verbatim_route_flush rt) as Hf.
  destruct (is_header (strip l)).
  { cbn [r_items]. by rewrite verbatim_lines_app, Hf. }
  destruct (SWAPVAR_PATTERN l).
  { cbn [r_items]. rewrite Hf. by destruct (r_inside rt); rewrite app_nil_r. }
  destruct (r_inside rt); cbn [andb].
  - destruct (endif_match l); cbn [r_items]; rewrite ?verbatim_lines_app;
      by rewrite ?app_nil_r.
  - cbn [r_items]. by rewrite verbatim_lines_app.
Qed.

(** Inside a section only the headers go to the output as they are. *)
Lemma verbatim_inside lines rt :
  r_inside rt = true →
  verbatim_lines (r_items (route_run excl lines rt))
  = verbatim_lines (r_items rt) ++ List.filter is_header_line lines.
Proof.
  revert rt. induction lines as [|l lines IH]; intros rt Hi.
  { cbn. by rewrite app_nil_r. }
  rewrite route_run_cons, IH by by apply route_step_keeps_inside.
  rewrite verbatim_step, Hi. cbn [List.filter]. unfold is_header_line at 2.
  destruct (is_header (strip l)); by rewrite <- app_assoc.
Qed.

(** Before the first header every line that opens no swap-conditional
    does. *)
Lemma verbatim_outside lines rt :
  r_inside rt = false →
  verbatim_lines (r_items (route_run excl lines rt))
  = verbatim_lines (r_items rt)
    ++ List.filter no_swapvar (before_header lines)
    ++ List.filter is_header_line (from_header lines).
Proof.
  revert rt. induction lines as [|l lines IH]; intros rt Hi.
  { cbn. by rewrite app_nil_r. }
  rewrite route_run_cons. cbn [before_header from_header].
  destruct (is_header_line l) eqn:Eh'; pose proof Eh' as Eh;
    unfold is_header_line in Eh.
  - rewrite verbatim_inside by (unfold route_step; by rewrite Eh).
    rewrite verbatim_step, Eh. cbn [List.filter app]. rewrite Eh'.
    by rewrite <- app_assoc.
  - rewrite IH.
    + rewrite verbatim_step, Eh, Hi. cbn [List.filter].
      destruct (no_swapvar l); by rewrite <- app_assoc.
    + unfold route_step. rewrite Eh. destruct (route_flush_flags rt) as (_ & F & _).
      destruct (SWAPVAR_PATTERN l); [cbn; congruence|]. by rewrite Hi.
Qed.

End route_facts.

(** C7: the tokenizer routes every input line once.  The returned lines
    and changes are those of the items of the routing, in which every
    block is passed once through [process_block_full], under the exclusion
    flag of its section; the lines of these items, counted with
    repetition, are exactly the input lines, so none is left in a pending
    block, lost or used twice, and no block is empty; the lines copied as
    they are, are the section headers and, before the first header, the
    lines that open no swap-conditional: every other line is in a block
    that goes through [process_block_full]. *)
Theorem tokenizer_routes_each_line_once rn excl lines :
  process_ini_preview rn excl lines
  = ((emit rn (route excl lines)).2, (emit rn (route excl lines)).1)
  ∧ flat_map item_lines (route excl lines) ≡ₚ lines
  ∧ Forall item_nonempty (route excl lines)
  ∧ Forall (item_flagged excl) (route excl lines)
  ∧ verbatim_lines (route excl lines)
    = List.filter no_swapvar (before_header lines)
      ++ List.filter is_header_line (from_header lines).
Proof.
  assert (simulates rn initial_state route_initial) as Hsim0.
  { unfold simulates. by repeat split. }
  assert (route_inv excl [] route_initial) as Hinv0.
  { unfold route_inv. cbn. by repeat split. }
  pose proof (simulates_flush_pending rn _ _
                (simulates_run rn excl lines _ _ Hsim0))
    as (Hn & Hc & _).
  pose proof (route_inv_flush excl _ _ (route_inv_run excl lines _ _ Hinv0))
    as (Hp & Hne & Hfl & _).
  unfold route. split; [|split; [|split; [|split]]]; try done.
  - unfold process_ini_preview. by rewrite finish_flush_pending, Hn, Hc.
  - by rewrite route_flush_block, app_nil_r in Hp.
  - rewrite verbatim_route_flush. by rewrite verbatim_outside.
Qed.

(** ** Bounds, and blocks that had no run line *)

(** X19: at most one run line is inserted for each indentation that
    carries a slot assignment: the AddedDirective records are no more than
    the slot assignments of the block, and the result is longer than the
    block by no more than that. *)
Theorem insertions_bounded rn sec block :
  length (List.filter is_AddedDirective (process_block_full rn block sec false).2)
  ≤ length (List.filter is_slot block)
  ∧ length (process_block_full rn block sec false).1
    ≤ length block + length (List.filter is_slot block).
Proof.
  unfold process_block_full. case_bool_decide as Hb; cbn [orb].
  { cbn. lia. }
  set (p1 := rename_pass rn sec block).
  pose proof (remove_loop_length sec (p_last p1) (correct_run block) 0
                (p_block p1) [] (p_changes p1)) as Hrm.
  pose proof (remove_loop_changes sec (p_last p1) (correct_run block) 0
                (p_block p1) [] (p_changes p1)) as (rs & Hrs & Frs).
  destruct (remove_loop (p_last p1) (correct_run block) sec 0 (p_block p1) []
              (p_changes p1)) as [temp ch].
  cbn [fst snd] in *. subst ch.
  pose proof (insert_fold_length sec (correct_run block)
                (sorted_items (p_last p1))
                (mkPass1 temp (p_changes p1 ++ rs) (p_last p1))) as Hins.
  pose proof (insert_fold_added sec (correct_run block)
                (sorted_items (p_last p1))
                (mkPass1 temp (p_changes p1 ++ rs) (p_last p1))) as Hle.
  pose proof (insert_fold_changes sec (correct_run block)
                (sorted_items (p_last p1))
                (mkPass1 temp (p_changes p1 ++ rs) (p_last p1)))
    as (adds & Hadds & Fadds).
  cbn [p_block p_changes] in Hins, Hle, Hadds.
  rewrite Hadds in Hins, Hle |- *.
  assert (size (p_last p1) ≤ length (List.filter is_slot block)) as Hsize.
  { unfold p1, rename_pass. etrans; [apply rename_fold_size|].
    cbn [p_last]. rewrite map_size_empty. lia. }
  assert (length (p_block p1) = length block) as Hl1.
  { unfold p1, rename_pass. rewrite rename_fold_block. cbn.
    by rewrite length_map. }
  assert (Forall (fun c => is_Renamed c = true) (p_changes p1)) as Fren.
  { unfold p1, rename_pass. rewrite rename_fold_changes. cbn.
    apply rename_records_Renamed. }
  rewrite length_sorted_items in Hle.
  rewrite !List.filter_app.
  rewrite (filter_all_false is_AddedDirective (p_changes p1)),
    (filter_all_false is_AddedDirective rs),
    (filter_all_true is_AddedDirective adds); try done.
  - repeat rewrite length_app in Hins. repeat rewrite length_app in Hrm.
    repeat rewrite length_app in Hle. cbn [app length] in *. lia.
  - eapply Forall_impl; [exact Frs|]. by intros [].
  - eapply Forall_impl; [exact Fren|]. by intros [].
Qed.

(** X20: renaming changes one character only: the renamed line has the
    length and the indentation of the line, is a slot assignment exactly
    when the line is, and contains the NormalMap marker exactly when the
    line does; so the correct run line of the block is also that of the
    renamed block. *)
Theorem rename_keeps_shape rn block :
  (∀ l, String.length (rename_line rn l) = String.length l
        ∧ indent_of (rename_line rn l) = indent_of l
        ∧ is_slot (rename_line rn l) = is_slot l
        ∧ contains "NormalMap" (rename_line rn l) = contains "NormalMap" l)
  ∧ correct_run (map (rename_line rn) block) = correct_run block.
Proof.
  split; [apply rename_line_shape|].
  unfold correct_run. by rewrite has_normal_rename.
Qed.

(** X21: a block without run lines whose slot assignments have no
    indentation is settled by one application: applying
    [process_block_full] to the result returns it unchanged and records
    nothing. *)
Theorem fresh_block_settled rn sec sec' block :
  Forall (fun l => RUN_LINE_PATTERN l = false) block →
  Forall (fun l => ps_t_digits (lstrip l) = true → indent_of l = 0) block →
  process_block_full rn (process_block_full rn block sec false).1 sec' false
  = ((process_block_full rn block sec false).1, []).
Proof.
  intros Hrun Hdepth.
  rewrite (process_block_full_fresh rn sec block 0 Hrun Hdepth).
  set (nb := map (rename_line rn) block).
  assert (Forall (fun l => RUN_LINE_PATTERN l = false) nb) as Hrun'.
  { apply Forall_fmap. eapply Forall_impl; [exact Hrun|].
    intros l. apply rename_line_not_run. }
  assert (Forall (fun l => ps_t_digits (lstrip l) = true → indent_of l = 0) nb)
    as Hdepth'.
  { apply Forall_fmap. eapply Forall_impl; [exact Hdepth|].
    intros l Hl. cbn.
    destruct (rename_line_shape rn l) as (_ & -> & Hs & _).
    unfold is_slot in Hs. by rewrite Hs. }
  pose proof (last_slot_from_rename rn 0 0 block) as Hlast. fold nb in Hlast.
  destruct (last_slot_from 0 0 block) as [j|] eqn:Ej; cbn [fst].
  - by apply process_block_full_settled.
  - rewrite (process_block_full_fresh rn sec' nb 0 Hrun' Hdepth'), Hlast.
    destruct (rename_pass_settled rn sec' block nb) as [-> ->]; [|done].
    intros l (l0 & -> & _)%list_elem_of_fmap. eauto.
Qed.

Lemma fresh_block_settled_witness :
  process_block_full true
    (process_block_full true block_two_slots None false).1 None false
  = ((process_block_full true block_two_slots None false).1, []).
Proof.
  apply (fresh_block_settled true None None block_two_slots).
  - repeat constructor.
  - repeat constructor.
Defined.
